(** * Speciation of a polyprotic acid: [ph_diagram.py]

    A shallow embedding of the numerical core of [ph_diagram.py] (the
    module-level pH grid, [Acid.__init__], [Acid.alpha],
    [Acid.log_concentrations] and [Acid.formulas]) and the properties of
    it that the specification states.

    Numbers.  The program computes with IEEE doubles held in numpy
    arrays.  It is embedded twice.  In the first embedding a double is a
    real number of [R]: every operation is the exact one, and rounding,
    overflow and underflow are not represented; what is proved there of
    values is stated for acids of the working range, where the doubles
    neither overflow nor underflow.  In the second embedding
    ([Float64]) a double is a primitive binary64 float, which shows what
    overflow and underflow do outside that range.  Integers ([range]
    indices, charges) are [nat] and [Z].

    Arrays.  A numpy value is either a scalar or a one-dimensional array
    ([ndarray]); binary operations broadcast as numpy does and raise
    [ValueError] on shapes that do not broadcast.

    Exceptions.  A call that can raise returns a [result]. *)

From Stdlib Require Import String Ascii.
From Stdlib Require Import Reals Lra Lia List ZArith Bool.
From Stdlib Require Import PrimFloat.
From Stdlib Require Import Decimal DecimalString.
Import ListNotations.

Set Implicit Arguments.

(** ** Exceptions and the error monad *)

Inductive exn : Type :=
| ValueError.

Inductive result (A : Type) : Type :=
| Ok (a : A)
| Raise (e : exn).

Arguments Ok {A} a.
Arguments Raise {A} e.

Definition bind {A B : Type} (m : result A) (k : A -> result B) : result B :=
  match m with
  | Ok a => k a
  | Raise e => Raise e
  end.

Notation "x <- m ;; k" := (bind m (fun x => k))
  (at level 61, m at next level, right associativity).

(** [[f(x) for x in l]] where [f] may raise. *)
Fixpoint comprehension {A B : Type} (f : A -> result B) (l : list A)
  : result (list B) :=
  match l with
  | [] => Ok []
  | x :: l' => y <- f x ;; ys <- comprehension f l' ;; Ok (y :: ys)
  end.

(** [functools.reduce(function, iterable, initializer)]. *)
Definition reduce {A B : Type} (function : A -> B -> result A)
  (iterable : list B) (initializer : A) : result A :=
  fold_left (fun acc x => a <- acc ;; function a x) iterable (Ok initializer).

(** ** The numpy fragment *)

Module Np.

Inductive ndarray (A : Type) : Type :=
| Scalar (x : A)
| Array (v : list A).

Arguments Scalar {A} x.
Arguments Array {A} v.

(** A unary ufunc. *)
Definition ufunc {A B : Type} (f : A -> B) (a : ndarray A) : ndarray B :=
  match a with
  | Scalar x => Scalar (f x)
  | Array v => Array (map f v)
  end.

Fixpoint zip_with {A : Type} (f : A -> A -> A) (v w : list A) : list A :=
  match v, w with
  | x :: v', y :: w' => f x y :: zip_with f v' w'
  | _, _ => []
  end.

(** A binary ufunc on values of dimension at most one: equal lengths
    combine pointwise, a length of one is stretched, anything else is
    numpy's "operands could not be broadcast together". *)
Definition broadcast {A : Type} (f : A -> A -> A) (a b : ndarray A)
  : result (ndarray A) :=
  match a, b with
  | Scalar x, Scalar y => Ok (Scalar (f x y))
  | Scalar x, Array w => Ok (Array (map (f x) w))
  | Array v, Scalar y => Ok (Array (map (fun x => f x y) v))
  | Array v, Array w =>
      if Nat.eqb (length v) (length w) then Ok (Array (zip_with f v w))
      else match v, w with
           | [x], _ => Ok (Array (map (f x) w))
           | _, [y] => Ok (Array (map (fun x => f x y) v))
           | _, _ => Raise ValueError
           end
  end.

Open Scope R_scope.

Definition add : ndarray R -> ndarray R -> result (ndarray R) := broadcast Rplus.
Definition mul : ndarray R -> ndarray R -> result (ndarray R) := broadcast Rmult.
Definition true_divide : ndarray R -> ndarray R -> result (ndarray R) :=
  broadcast Rdiv.

(** Ceiling of a real, from the Standard Library's [up]. *)
Definition ceil (x : R) : Z := (1 - up (- x))%Z.

(** [np.arange(start, stop, step)]: [ceil((stop - start)/step)] values
    [start + i*step]. *)
Definition arange (start stop step : R) : ndarray R :=
  Array (map (fun i => start + INR i * step)
             (seq 0 (Z.to_nat (ceil ((stop - start) / step))))).

(** What [np.log10] yields: the logarithm, or the special values numpy
    gives outside the domain (with a RuntimeWarning, not an exception). *)
Inductive logval : Type :=
| Finite (r : R)
| NegInf
| NaN.

Definition log10 (x : R) : logval :=
  if Rlt_dec 0 x then Finite (ln x / ln 10)
  else if Req_dec_T x 0 then NegInf
  else NaN.

End Np.

Import Np.

Open Scope R_scope.

(** Builtin [sum(iterable)]: folds [+] from the integer 0. *)
Definition sum (iterable : list (ndarray R)) : result (ndarray R) :=
  reduce Np.add iterable (Scalar 0).

(** ** Module-level grid (lines 8 to 12) *)

Definition pH : ndarray R := arange 0 14.1 0.1.

Definition hydronium_concentration : ndarray R :=
  ufunc (fun x => Rpower 10 (- x)) pH.

Definition pKw : R := 14.

Definition pOH : ndarray R := ufunc (fun x => pKw - x) pH.

Definition hydroxide_concentration : ndarray R :=
  ufunc (fun x => Rpower 10 (- x)) pOH.

(** ** class Acid *)

Record Acid : Type := {
  pKa : list R;
  Ka : list R;
  Ca : R
}.

(** [Acid.__init__]: three assignments, no [raise]. *)
Definition Acid_init (pKa0 : list R) (acid_concetration : R) : result Acid :=
  Ok {| pKa := pKa0;
        Ka := map (fun x => Rpower 10 (- x)) pKa0;
        Ca := acid_concetration |}.

(** One pass of the loop of [alpha]:
    [reduce(mul, self.Ka[0:i], hydronium_concentration**(self.pKa.size-i))]. *)
Definition numerator (hc : ndarray R) (self : Acid) (i : nat)
  : result (ndarray R) :=
  reduce Np.mul (map Scalar (firstn i (Ka self)))
         (ufunc (fun h => h ^ (length (pKa self) - i)) hc).

(** The loop of [alpha], threading the list [numerators]. *)
Definition numerators_loop (hc : ndarray R) (self : Acid)
  : result (list (ndarray R)) :=
  fold_left
    (fun acc i => numerators <- acc ;;
                  x <- numerator hc self i ;;
                  Ok (numerators ++ [x]))
    (seq 0 (length (pKa self) + 1)) (Ok []).

(** [Acid.alpha], with the module global it reads when called made a
    parameter. *)
Definition alpha_with (hc : ndarray R) (self : Acid)
  : result (list (ndarray R)) :=
  numerators <- numerators_loop hc self ;;
  comprehension
    (fun numerator => s <- sum numerators ;; Np.true_divide numerator s)
    numerators.

(** [Acid.alpha] in the module as it is written. *)
Definition alpha (self : Acid) : result (list (ndarray R)) :=
  alpha_with hydronium_concentration self.

(** The arguments [alpha * self.Ca] handed to [np.log10]. *)
Definition log10_arguments (self : Acid) : result (list (ndarray R)) :=
  alphas <- alpha self ;;
  comprehension (fun al => Np.mul al (Scalar (Ca self))) alphas.

(** [Acid.log_concentrations]. *)
Definition log_concentrations (self : Acid) : result (list (ndarray logval)) :=
  alphas <- alpha self ;;
  comprehension
    (fun al => x <- Np.mul al (Scalar (Ca self)) ;; Ok (ufunc Np.log10 x))
    alphas.

Close Scope R_scope.

(** ** Species labels *)

Open Scope string_scope.

(** [str(k)] for an integer. *)
Definition str (k : Z) : string := NilZero.string_of_int (Z.to_int k).

(** [s.replace(old, new)] for one-character [old] and [new]. *)
Fixpoint replace (old new : ascii) (s : string) : string :=
  match s with
  | EmptyString => EmptyString
  | String c s' =>
      String (if Ascii.eqb c old then new else c) (replace old new s')
  end.

(** The integer [charge] of line 56. *)
Definition charge (number_of_species i : Z) : Z :=
  (number_of_species - (number_of_species + i - 1))%Z.

(** Lines 57 to 62: what [charge] is rebound to, as the f-string prints it. *)
Definition charge_text (c : Z) : string :=
  if (c =? 0)%Z then ""
  else if (c =? -1)%Z then "-"
  else str c.

(** The label appended by one pass of the loop (lines 55 to 69). *)
Definition label (number_of_species i : Z) : string :=
  let idx := (number_of_species - i)%Z in
  let c := charge_text (charge number_of_species i) in
  if (idx =? 0)%Z then "B" ++ c
  else if (idx =? 1)%Z then "HB" ++ c
  else "H" ++ str idx ++ "B" ++ c.

(** The loop of [formulas] over [range(1, number_of_species + 1)]. *)
Definition labels_loop (number_of_species : nat) : list string :=
  fold_left
    (fun labels i =>
       (labels ++ [label (Z.of_nat number_of_species) (Z.of_nat i)])%list)
    (seq 1 number_of_species) [].

(** chempy's [Substance]: the two attributes the module reads. *)
Record Substance : Type := {
  latex_name : string;
  html_name : string
}.

(** [Acid.formulas].  [from_formula] is chempy's [Substance.from_formula],
    an external collaborator taken as a parameter. *)
Definition formulas (from_formula : string -> Substance)
  (self : Acid) (output : string) : result (list string) :=
  alphas <- alpha self ;;
  let number_of_species := length alphas in
  let labels := labels_loop number_of_species in
  if output =? "raw" then
    Ok (map (replace "B" "A") labels)
  else if output =? "latex" then
    let temp := map (fun formula => latex_name (from_formula formula)) labels in
    Ok (map (replace "B" "A") temp)
  else if output =? "html" then
    let temp := map (fun formula => html_name (from_formula formula)) labels in
    Ok (map (replace "B" "A") temp)
  else Raise ValueError.

Close Scope string_scope.

(** ** Reading a value of the grid shape *)

Open Scope R_scope.

(** [a.size]. *)
Definition size {A : Type} (a : ndarray A) : nat :=
  match a with
  | Scalar _ => 1%nat
  | Array v => length v
  end.

(** [a[g]] for an array (a scalar has one value). *)
Definition item (a : ndarray R) (g : nat) : R :=
  match a with
  | Scalar x => x
  | Array v => nth g v 0
  end.

(** Sum and product of a list of reals. *)
Definition Rsum (l : list R) : R := fold_right Rplus 0 l.
Definition Rprod (l : list R) : R := fold_right Rmult 1 l.

(** ** The distribution formula, in the words of the specification *)

Module Spec.

(** The grid: 0 to 14 inclusive in steps of 0.1, 141 points. *)
Definition grid : list R := map (fun i => INR i / 10) (seq 0 141).

(** [hydroniumConcentration = 10^(-pH)]. *)
Definition hydronium (p : R) : R := Rpower 10 (- p).

(** [Ka[i] = 10^(-pKaValues[i])]. *)
Definition dissociation_constants (pKaValues : list R) : list R :=
  map (fun p => Rpower 10 (- p)) pKaValues.

(** [numerator[k] = (product of Ka[0..k-1]) * hydroniumConcentration^(n-k)]. *)
Definition numerator (K : list R) (h : R) (k : nat) : R :=
  Rprod (firstn k K) * h ^ (length K - k).

(** [alpha[k] = numerator[k] / sum_j numerator[j]], j = 0..n. *)
Definition alpha (K : list R) (h : R) (k : nat) : R :=
  numerator K h k / Rsum (map (numerator K h) (seq 0 (length K + 1))).

End Spec.

(** ** Entries of the arrays of [alpha] *)

(** One entry of numerator [i], as the loop body computes it. *)
Definition numerator_at (self : Acid) (i : nat) (h : R) : R :=
  fold_left Rmult (firstn i (Ka self)) (h ^ (length (pKa self) - i)).

(** One entry of [sum(numerators)]. *)
Definition total_at (self : Acid) (h : R) : R :=
  fold_left Rplus
    (map (fun j => numerator_at self j h) (seq 0 (length (pKa self) + 1))) 0.

(** The values of all curves at grid index [g]. *)
Definition column (curves : list (ndarray R)) (g : nat) : list R :=
  map (fun a => item a g) curves.

(** ** Acids and collaborators used as examples *)

(** The acid of the module's own example: [Acid((2.17, 9.19, 10.47), 0.1)]. *)
Definition tyrosine : Acid :=
  {| pKa := [2.17; 9.19; 10.47];
     Ka := map (fun x => Rpower 10 (- x)) [2.17; 9.19; 10.47];
     Ca := 0.1 |}.

(** The monoprotic scenario: [Acid((4.76,), 0.05)]. *)
Definition acetic : Acid :=
  {| pKa := [4.76];
     Ka := map (fun x => Rpower 10 (- x)) [4.76];
     Ca := 0.05 |}.

(** A stand-in for chempy that names a formula by itself. *)
Definition plain_names (formula : string) : Substance :=
  {| latex_name := formula; html_name := formula |}.

(** A diprotic acid: carbonic acid, pKa = (6.35, 10.33), Ca = 0.1. *)
Definition carbonic : Acid :=
  {| pKa := [6.35; 10.33];
     Ka := map (fun x => Rpower 10 (- x)) [6.35; 10.33];
     Ca := 0.1 |}.

(** ** The same computation over IEEE doubles

    [+], [*] and [/] are those of binary64: they round, overflow to
    infinity, underflow to zero and yield NaN as the hardware does.
    [pow], which numpy's [**] takes from the C library, is a parameter
    of what uses it. *)

Module Float64.

#[local] Set Warnings "-inexact-float".
#[local] Open Scope float_scope.

(** [float(k)] for a small non-negative integer. *)
Fixpoint float_of_nat (k : nat) : float :=
  match k with
  | O => 0
  | S k' => float_of_nat k' + 1
  end.

(** The least [n], from [n0] on and within [fuel] steps, with [x <= n]. *)
Fixpoint ceil_from (fuel n0 : nat) (x : float) : nat :=
  match fuel with
  | O => n0
  | S fuel' => if x <=? float_of_nat n0 then n0
               else ceil_from fuel' (S n0) x
  end.

(** [np.arange(start, stop, step)] for a length below 1000. *)
Definition arange64 (start stop step : float) : ndarray float :=
  Array (map (fun i => start + float_of_nat i * step)
             (seq 0 (ceil_from 1000 0 ((stop - start) / step)))).

Definition add64 : ndarray float -> ndarray float -> result (ndarray float) :=
  broadcast PrimFloat.add.
Definition mul64 : ndarray float -> ndarray float -> result (ndarray float) :=
  broadcast PrimFloat.mul.
Definition true_divide64
  : ndarray float -> ndarray float -> result (ndarray float) :=
  broadcast PrimFloat.div.

(** Builtin [sum]: from the integer 0, which numpy takes as 0.0. *)
Definition sum64 (iterable : list (ndarray float)) : result (ndarray float) :=
  reduce add64 iterable (Scalar 0).

Record Acid64 : Type := {
  pKa64 : list float;
  Ka64 : list float;
  Ca64 : float
}.

(** [a[g]] for an array of doubles. *)
Definition item64 (a : ndarray float) (g : nat) : float :=
  match a with
  | Scalar x => x
  | Array v => nth g v nan
  end.

Section Libm.

Variable pow : float -> float -> float.

Definition pH64 : ndarray float := arange64 0 14.1 0.1.

Definition hydronium_concentration64 : ndarray float :=
  ufunc (fun x => pow 10 (- x)) pH64.

Definition Acid_init64 (pKa0 : list float) (acid_concetration : float)
  : result Acid64 :=
  Ok {| pKa64 := pKa0;
        Ka64 := map (fun x => pow 10 (- x)) pKa0;
        Ca64 := acid_concetration |}.

Definition numerator64 (hc : ndarray float) (self : Acid64) (i : nat)
  : result (ndarray float) :=
  reduce mul64 (map Scalar (firstn i (Ka64 self)))
         (ufunc (fun h => pow h (float_of_nat (length (pKa64 self) - i))) hc).

Definition numerators_loop64 (hc : ndarray float) (self : Acid64)
  : result (list (ndarray float)) :=
  fold_left
    (fun acc i => numerators <- acc ;;
                  x <- numerator64 hc self i ;;
                  Ok (numerators ++ [x]))
    (seq 0 (length (pKa64 self) + 1)) (Ok []).

Definition alpha_with64 (hc : ndarray float) (self : Acid64)
  : result (list (ndarray float)) :=
  numerators <- numerators_loop64 hc self ;;
  comprehension
    (fun numerator => s <- sum64 numerators ;; true_divide64 numerator s)
    numerators.

Definition alpha64 (self : Acid64) : result (list (ndarray float)) :=
  alpha_with64 hydronium_concentration64 self.

(** The arguments [alpha * self.Ca] handed to [np.log10]. *)
Definition log10_arguments64 (self : Acid64) : result (list (ndarray float)) :=
  alphas <- alpha64 self ;;
  comprehension (fun al => mul64 al (Scalar (Ca64 self))) alphas.

(** One entry of numerator [i], and one entry of [sum(numerators)]. *)
Definition numerator_at64 (self : Acid64) (i : nat) (h : float) : float :=
  fold_left PrimFloat.mul (firstn i (Ka64 self))
            (pow h (float_of_nat (length (pKa64 self) - i))).

Definition total_at64 (self : Acid64) (h : float) : float :=
  fold_left PrimFloat.add
    (map (fun j => numerator_at64 self j h) (seq 0 (length (pKa64 self) + 1)))
    0.

End Libm.

(** Values of [pow] that IEEE 754 and Annex F of the C standard fix:
    [pow(x, +-0) = 1] for every [x], [pow(x, 1) = x], overflow to
    infinity and underflow to zero. *)
Definition pow_special_values (pow : float -> float -> float) : Prop :=
  (forall x, pow x 0 = 1) /\
  (forall x, pow x (- 0) = 1) /\
  (forall x, pow x 1 = x) /\
  pow 10 400 = infinity /\
  pow 10 (- 400) = 0.

(** A function with these values, for use in examples: whole powers by
    repeated products, NaN elsewhere. *)
Fixpoint products (x : float) (k : nat) : float :=
  match k with
  | O => 1
  | S O => x
  | S k' => products x k' * x
  end.

Fixpoint whole (fuel n : nat) (fn y : float) : option nat :=
  match fuel with
  | O => None
  | S fuel' => if fn =? y then Some n else whole fuel' (S n) (fn + 1) y
  end.

Definition pow_by_products (x y : float) : float :=
  match whole 1100 0 0 (PrimFloat.abs y) with
  | Some k => if y <? 0 then 1 / products x k else products x k
  | None => nan
  end.

End Float64.

(** ** The working range

    An acid has at most 20 pKa values, each between 0 and 14.  On the
    grid every weight of such an acid lies between [10^(-280)] and 1 and
    every sum of weights below 21: the doubles of the program neither
    overflow nor underflow there, and differ from the real numbers of
    this model by rounding only. *)
Definition working_range (pKaValues : list R) : Prop :=
  (length pKaValues <= 20)%nat /\ Forall (fun p => 0 <= p <= 14) pKaValues.

(** ** The diagrams (lines 87 to 187)

    The calls into matplotlib and plotly draw on the screen or write a
    file; nothing they return is used.  They are not run here: a diagram
    method yields the figure it hands over, that is the curves in the
    order they are added, each with its abscissa, its ordinate and its
    legend entry, and where the figure goes at the end.  Styling
    arguments and layout are not kept.  The axis set-up of
    [plot_params], with which both matplotlib methods start, is a
    parameter: it returns or raises as the installed matplotlib does. *)

Module Plot.

(** The methods index a list, so [IndexError] joins the exceptions, and
    so does whatever else a plotting library raises. *)
Inductive exception : Type :=
| Builtin (e : exn)
| IndexError
| Foreign (what : string).

Inductive outcome (A : Type) : Type :=
| Returns (a : A)
| Raises (e : exception).

Arguments Returns {A} a.
Arguments Raises {A} e.

Definition lift {A : Type} (r : result A) : outcome A :=
  match r with
  | Ok a => Returns a
  | Raise e => Raises (Builtin e)
  end.

Definition and_then {A B : Type} (m : outcome A) (k : A -> outcome B)
  : outcome B :=
  match m with
  | Returns a => k a
  | Raises e => Raises e
  end.

Notation "x <~ m ;; k" := (and_then m (fun x => k))
  (at level 61, m at next level, right associativity).

(** The ordinate of a curve: fractions, or logarithms from [np.log10]. *)
Inductive ordinate : Type :=
| Floats (v : ndarray R)
| Logs (v : ndarray logval).

(** One [plt.plot(x, y, label=...)] or [go.Scatter(x=, y=, name=)]. *)
Record curve : Type := {
  x_data : ndarray R;
  y_data : ordinate;
  name : string
}.

(** [plt.show()] and [fig.show()], or [fig.write_html(file, ...)]. *)
Inductive destination : Type :=
| show
| write_html (file : string).

Record figure : Type := {
  curves : list curve;
  goes_to : destination
}.

(** [l[i]]. *)
Definition getitem {A : Type} (l : list A) (i : nat) : outcome A :=
  match nth_error l i with
  | Some a => Returns a
  | None => Raises IndexError
  end.

(** [enumerate(l)]. *)
Definition enumerate {A : Type} (l : list A) : list (nat * A) :=
  combine (seq 0 (length l)) l.

(** One pass of [for i, y in enumerate(...)]: the curve is added under
    the legend entry made from [labels[i]]. *)
Definition add_curve (entry : string -> string) (labels : list string)
  (acc : outcome (list curve)) (iy : nat * ordinate) : outcome (list curve) :=
  cs <~ acc ;;
  l <~ getitem labels (fst iy) ;;
  Returns (cs ++ [{| x_data := pH; y_data := snd iy; name := entry l |}]).

Definition add_curves (entry : string -> string) (labels : list string)
  (ys : list ordinate) (drawn : list curve) : outcome (list curve) :=
  fold_left (add_curve entry labels) (enumerate ys) (Returns drawn).

(** The curve drawn for a label and an ordinate of the same index. *)
Definition curve_of (entry : string -> string) (ly : string * ordinate)
  : curve :=
  {| x_data := pH; y_data := snd ly; name := entry (fst ly) |}.

(** The f-string [f'${labels[i]}$']. *)
Definition dollars (l : string) : string := ("$" ++ l ++ "$")%string.

(** The two dashed lines of a pC diagram: [-pH] and [-pOH] against pH. *)
Definition water_lines : list curve :=
  [ {| x_data := pH; y_data := Floats (ufunc Ropp pH); name := "pH" |};
    {| x_data := pH; y_data := Floats (ufunc Ropp pOH); name := "pOH" |} ].

Section Diagrams.

Variable from_formula : string -> Substance.

(** The matplotlib calls of [plot_params] (lines 36 to 49) for a given
    [ylabel] and [xlabel]: they return, or raise what the installed
    matplotlib raises (recent versions reject [ax.grid(b=True, ...)]). *)
Variable axes_setup : string -> string -> outcome unit.

(** [Acid.plot_params(ylabel)], with [axis=None] and [xlabel='pH']. *)
Definition plot_params (ylabel : string) : outcome unit :=
  axes_setup ylabel "pH".

Definition _distribution_diagram_matplotlib (self : Acid) : outcome figure :=
  _ <~ plot_params "$\alpha$" ;;
  labels <~ lift (formulas from_formula self "latex") ;;
  alphas <~ lift (alpha self) ;;
  cs <~ add_curves dollars labels (map Floats alphas) [] ;;
  Returns {| curves := cs; goes_to := show |}.

Definition _pC_diagram_matplotlib (self : Acid) : outcome figure :=
  _ <~ plot_params "$\log c$" ;;
  labels <~ lift (formulas from_formula self "latex") ;;
  logs <~ lift (log_concentrations self) ;;
  cs <~ add_curves dollars labels (map Logs logs) water_lines ;;
  Returns {| curves := cs; goes_to := show |}.

Definition _distribution_diagram_plotly (self : Acid) (output : bool)
  : outcome figure :=
  labels <~ lift (formulas from_formula self "html") ;;
  alphas <~ lift (alpha self) ;;
  cs <~ add_curves (fun l => l) labels (map Floats alphas) [] ;;
  Returns {| curves := cs;
             goes_to := if output then write_html "output_distribution.html"
                        else show |}.

Definition _pC_diagram_plotly (self : Acid) (output : bool) : outcome figure :=
  labels <~ lift (formulas from_formula self "html") ;;
  logs <~ lift (log_concentrations self) ;;
  cs <~ add_curves (fun l => l) labels (map Logs logs) water_lines ;;
  Returns {| curves := cs;
             goes_to := if output then write_html "output_pC.html"
                        else show |}.

(** [Acid.plot] (lines 176 to 187). *)
Definition plot (self : Acid) (type backend : string) (output_plotly : bool)
  : outcome figure :=
  if ((type =? "distribution") && (backend =? "matplotlib"))%string then
    _distribution_diagram_matplotlib self
  else if ((type =? "distribution") && (backend =? "plotly"))%string then
    _distribution_diagram_plotly self output_plotly
  else if ((type =? "pC") && (backend =? "matplotlib"))%string then
    _pC_diagram_matplotlib self
  else if ((type =? "pC") && (backend =? "plotly"))%string then
    _pC_diagram_plotly self output_plotly
  else Raises (Builtin ValueError).

End Diagrams.

End Plot.

(** * Properties *)

(** ** The error monad and the loops *)

Lemma bind_Ok {A B : Type} (a : A) (k : A -> result B) :
  bind (Ok a) k = k a.
Proof. reflexivity. Qed.

Lemma comprehension_total {A B : Type} (f : A -> result B) (g : A -> B)
  (l : list A) :
  (forall x, In x l -> f x = Ok (g x)) ->
  comprehension f l = Ok (map g l).
Proof.
  induction l as [| x l IH]; intros Hf; simpl.
  - reflexivity.
  - rewrite (Hf x) by (left; reflexivity). simpl.
    rewrite IH by (intros y Hy; apply Hf; right; exact Hy).
    reflexivity.
Qed.

(** A loop that appends one computed value per pass builds the [map]. *)
Lemma append_loop {A B : Type} (f : A -> result B) (g : A -> B)
  (l : list A) (acc : list B) :
  (forall x, In x l -> f x = Ok (g x)) ->
  fold_left (fun r i => ys <- r ;; y <- f i ;; Ok (ys ++ [y])) l (Ok acc)
  = Ok (acc ++ map g l).
Proof.
  revert acc.
  induction l as [| x l IH]; intros acc Hf; simpl.
  - now rewrite app_nil_r.
  - rewrite (Hf x) by (left; reflexivity). simpl.
    rewrite IH by (intros y Hy; apply Hf; right; exact Hy).
    now rewrite <- app_assoc.
Qed.

(** ** Arrays over one grid *)

Lemma zip_with_map {A : Type} (f : R -> R -> R) (a b : A -> R) (g : list A) :
  zip_with f (map a g) (map b g) = map (fun x => f (a x) (b x)) g.
Proof.
  induction g as [| x g IH]; simpl; [reflexivity | now rewrite IH].
Qed.

Lemma broadcast_same_grid {A : Type} (f : R -> R -> R) (a b : A -> R)
  (g : list A) :
  broadcast f (Array (map a g)) (Array (map b g))
  = Ok (Array (map (fun x => f (a x) (b x)) g)).
Proof.
  unfold broadcast. rewrite !length_map, Nat.eqb_refl.
  now rewrite zip_with_map.
Qed.

Lemma broadcast_array_scalar {A : Type} (f : R -> R -> R) (a : A -> R)
  (g : list A) (y : R) :
  broadcast f (Array (map a g)) (Scalar y)
  = Ok (Array (map (fun x => f (a x) y) g)).
Proof. unfold broadcast. now rewrite map_map. Qed.

Lemma broadcast_scalar_array {A : Type} (f : R -> R -> R) (b : A -> R)
  (g : list A) (x : R) :
  broadcast f (Scalar x) (Array (map b g))
  = Ok (Array (map (fun y => f x (b y)) g)).
Proof. unfold broadcast. now rewrite map_map. Qed.

(** [reduce(mul, scalars, array)] multiplies every entry by the scalars,
    left to right. *)
Lemma reduce_mul_scalars {A : Type} (l : list R) (a : A -> R) (g : list A) :
  reduce Np.mul (map Scalar l) (Array (map a g))
  = Ok (Array (map (fun x => fold_left Rmult l (a x)) g)).
Proof.
  unfold reduce. revert a.
  induction l as [| k l IH]; intros a; cbn [fold_left map bind].
  - reflexivity.
  - unfold Np.mul at 2. rewrite broadcast_array_scalar.
    apply (IH (fun x => a x * k)).
Qed.

(** [sum] of arrays over one grid, continued from an array. *)
Lemma sum_from_array {A : Type} (fs : list (A -> R)) (a : A -> R) (g : list A) :
  fold_left (fun acc x => s <- acc ;; Np.add s x)
            (map (fun f => Array (map f g)) fs) (Ok (Array (map a g)))
  = Ok (Array (map (fun x => fold_left Rplus (map (fun f => f x) fs) (a x)) g)).
Proof.
  revert a.
  induction fs as [| f fs IH]; intros a; cbn [fold_left map bind].
  - reflexivity.
  - unfold Np.add at 2. rewrite broadcast_same_grid.
    apply (IH (fun x => a x + f x)).
Qed.

Lemma sum_arrays {A : Type} (f : A -> R) (fs : list (A -> R)) (g : list A) :
  sum (map (fun f => Array (map f g)) (f :: fs))
  = Ok (Array (map (fun x => fold_left Rplus (map (fun f => f x) (f :: fs)) 0) g)).
Proof.
  unfold sum, reduce. cbn [fold_left map bind].
  unfold Np.add at 2. rewrite broadcast_scalar_array.
  apply (sum_from_array fs (fun x => 0 + f x)).
Qed.

(** ** The grid *)

Lemma ceil_IZR (z : Z) : ceil (IZR z) = z.
Proof.
  unfold ceil.
  assert (H : (1 - z)%Z = up (- IZR z)).
  { apply tech_up; rewrite minus_IZR; simpl; lra. }
  rewrite <- H. lia.
Qed.

Lemma pH_length : ceil ((14.1 - 0) / 0.1) = 141%Z.
Proof.
  replace ((14.1 - 0) / 0.1) with (IZR 141) by lra.
  apply ceil_IZR.
Qed.

Lemma pH_points : pH = Array Spec.grid.
Proof.
  unfold pH, arange, Spec.grid. rewrite pH_length.
  f_equal. apply map_ext. intros i. lra.
Qed.

Lemma hydronium_points :
  hydronium_concentration = Array (map Spec.hydronium Spec.grid).
Proof. unfold hydronium_concentration. now rewrite pH_points. Qed.

Lemma size_pH : size pH = 141%nat.
Proof.
  rewrite pH_points. unfold Spec.grid, size.
  now rewrite length_map, length_seq.
Qed.

(** ** Shape of [alpha] *)

Lemma numerator_array (g : list R) (self : Acid) (i : nat) :
  numerator (Array g) self i = Ok (Array (map (numerator_at self i) g)).
Proof.
  unfold numerator. cbn [ufunc].
  apply (reduce_mul_scalars (firstn i (Ka self))
           (fun h => h ^ (length (pKa self) - i)) g).
Qed.

Lemma numerators_loop_array (g : list R) (self : Acid) :
  numerators_loop (Array g) self
  = Ok (map (fun i => Array (map (numerator_at self i) g))
            (seq 0 (length (pKa self) + 1))).
Proof.
  unfold numerators_loop.
  rewrite (append_loop (numerator (Array g) self)
             (fun i => Array (map (numerator_at self i) g))).
  - reflexivity.
  - intros i _. apply numerator_array.
Qed.

Lemma sum_numerators (g : list R) (self : Acid) :
  sum (map (fun i => Array (map (numerator_at self i) g))
           (seq 0 (length (pKa self) + 1)))
  = Ok (Array (map (total_at self) g)).
Proof.
  unfold total_at.
  rewrite Nat.add_1_r. cbn [seq].
  rewrite <- (map_map (numerator_at self) (fun f => Array (map f g))).
  rewrite map_cons, sum_arrays. do 2 f_equal.
  apply map_ext. intros h. now rewrite <- map_cons, map_map.
Qed.

Lemma alpha_with_array (g : list R) (self : Acid) :
  alpha_with (Array g) self
  = Ok (map (fun i =>
               Array (map (fun h => numerator_at self i h / total_at self h) g))
            (seq 0 (length (pKa self) + 1))).
Proof.
  unfold alpha_with. rewrite numerators_loop_array, bind_Ok.
  rewrite (comprehension_total _
             (fun a => match a with
                       | Scalar x => Scalar x
                       | Array v =>
                           Array (zip_with Rdiv v (map (total_at self) g))
                       end)).
  - rewrite map_map. f_equal. apply map_ext. intros i.
    now rewrite zip_with_map.
  - intros a Ha. rewrite sum_numerators, bind_Ok.
    apply in_map_iff in Ha. destruct Ha as [i [<- _]].
    unfold Np.true_divide. rewrite broadcast_same_grid.
    now rewrite zip_with_map.
Qed.

(** ** Sums and products of reals *)

Lemma fold_left_Rmult (l : list R) (a : R) :
  fold_left Rmult l a = Rprod l * a.
Proof.
  revert a. induction l as [| x l IH]; intros a; simpl.
  - lra.
  - rewrite IH. lra.
Qed.

Lemma fold_left_Rplus (l : list R) (a : R) :
  fold_left Rplus l a = a + Rsum l.
Proof.
  revert a. induction l as [| x l IH]; intros a; simpl.
  - lra.
  - rewrite IH. lra.
Qed.

Lemma Rprod_pos (l : list R) : Forall (fun x => 0 < x) l -> 0 < Rprod l.
Proof.
  induction 1 as [| x l Hx _ IH]; simpl.
  - lra.
  - now apply Rmult_lt_0_compat.
Qed.

Lemma Rsum_nonneg (l : list R) : Forall (fun x => 0 < x) l -> 0 <= Rsum l.
Proof.
  induction 1 as [| x l Hx _ IH]; simpl; lra.
Qed.

Lemma Rsum_pos (l : list R) :
  Forall (fun x => 0 < x) l -> l <> [] -> 0 < Rsum l.
Proof.
  intros H Hne. destruct H as [| x l Hx Hl]; [congruence |].
  simpl. pose proof (Rsum_nonneg Hl). lra.
Qed.

Lemma Rsum_bounds_member (l : list R) (x : R) :
  Forall (fun y => 0 < y) l -> In x l -> x <= Rsum l.
Proof.
  induction 1 as [| y l Hy Hl IH]; simpl; intros Hin.
  - contradiction.
  - pose proof (Rsum_nonneg Hl). destruct Hin as [-> | Hin].
    + lra.
    + specialize (IH Hin). lra.
Qed.

(** With two entries or more, each entry is strictly below the sum. *)
Lemma Rsum_exceeds_entry (l : list R) (k : nat) :
  Forall (fun y => 0 < y) l -> (2 <= length l)%nat -> (k < length l)%nat ->
  nth k l 0 < Rsum l.
Proof.
  intros Hl Hlen Hk.
  destruct Hl as [| y l Hy Hl]; simpl in *; [lia |].
  destruct k as [| k].
  - assert (0 < Rsum l) by (apply Rsum_pos; [exact Hl | destruct l; simpl in *; [lia | congruence]]).
    lra.
  - assert (nth k l 0 <= Rsum l).
    { apply Rsum_bounds_member; [exact Hl | apply nth_In; lia]. }
    lra.
Qed.

Lemma Rsum_scaled (l : list R) (d : R) :
  Rsum (map (fun x => x / d) l) = Rsum l / d.
Proof.
  induction l as [| x l IH]; simpl.
  - lra.
  - rewrite IH. lra.
Qed.

Lemma Rpower_pos (b x : R) : 0 < Rpower b x.
Proof. unfold Rpower. apply exp_pos. Qed.

(** ** The code's entries and the formula of the specification *)

Lemma init_fields (pKaValues : list R) (c : R) (self : Acid) :
  Acid_init pKaValues c = Ok self ->
  pKa self = pKaValues /\
  Ka self = Spec.dissociation_constants pKaValues /\
  Ca self = c.
Proof.
  unfold Acid_init. intros H. injection H as <-. now simpl.
Qed.

Lemma numerator_at_formula (self : Acid) (i : nat) (h : R) :
  length (Ka self) = length (pKa self) ->
  numerator_at self i h = Spec.numerator (Ka self) h i.
Proof.
  intros Hlen. unfold numerator_at, Spec.numerator.
  now rewrite fold_left_Rmult, Hlen.
Qed.

Lemma total_at_formula (self : Acid) (h : R) :
  length (Ka self) = length (pKa self) ->
  total_at self h
  = Rsum (map (Spec.numerator (Ka self) h) (seq 0 (length (Ka self) + 1))).
Proof.
  intros Hlen. unfold total_at.
  rewrite fold_left_Rplus, Rplus_0_l, Hlen. f_equal.
  apply map_ext. intros j. now apply numerator_at_formula.
Qed.

Lemma init_lengths (pKaValues : list R) (c : R) (self : Acid) :
  Acid_init pKaValues c = Ok self ->
  length (Ka self) = length (pKa self) /\ length (pKa self) = length pKaValues.
Proof.
  intros H. destruct (init_fields H) as (-> & -> & _).
  unfold Spec.dissociation_constants. now rewrite length_map.
Qed.

Lemma alpha_formula (self : Acid) :
  length (Ka self) = length (pKa self) ->
  alpha self
  = Ok (map (fun k =>
               Array (map (fun p => Spec.alpha (Ka self) (Spec.hydronium p) k)
                          Spec.grid))
            (seq 0 (length (pKa self) + 1))).
Proof.
  intros Hlen. unfold alpha.
  rewrite hydronium_points, alpha_with_array. f_equal.
  apply map_ext. intros k. f_equal. rewrite map_map.
  apply map_ext. intros p. unfold Spec.alpha.
  now rewrite numerator_at_formula, total_at_formula.
Qed.

Lemma numerators_of_init (pKaValues : list R) (c : R) (self : Acid) :
  Acid_init pKaValues c = Ok self ->
  numerators_loop hydronium_concentration self
  = Ok (map (fun k =>
               Array (map (fun p =>
                             Spec.numerator
                               (Spec.dissociation_constants pKaValues)
                               (Spec.hydronium p) k)
                          Spec.grid))
            (seq 0 (length pKaValues + 1))).
Proof.
  intros Hinit.
  destruct (init_lengths Hinit) as [Hlen Hn].
  destruct (init_fields Hinit) as (_ & HKa & _).
  rewrite hydronium_points, numerators_loop_array, Hn. f_equal.
  apply map_ext. intros k. f_equal. rewrite map_map.
  apply map_ext. intros p.
  rewrite numerator_at_formula by exact Hlen. now rewrite HKa.
Qed.

Lemma alpha_of_init (pKaValues : list R) (c : R) (self : Acid) :
  Acid_init pKaValues c = Ok self ->
  alpha self
  = Ok (map (fun k =>
               Array (map (fun p =>
                             Spec.alpha (Spec.dissociation_constants pKaValues)
                                        (Spec.hydronium p) k)
                          Spec.grid))
            (seq 0 (length pKaValues + 1))).
Proof.
  intros Hinit.
  destruct (init_lengths Hinit) as [Hlen Hn].
  destruct (init_fields Hinit) as (_ & HKa & _).
  rewrite alpha_formula by exact Hlen. now rewrite Hn, HKa.
Qed.

(** C1.  [alpha] computes, at every point of the grid, the weights
    [numerator[k] = (product of Ka[0..k-1]) * hydronium^(n-k)] for
    k = 0..n, with [Ka[i] = 10^(-pKa[i])], and returns the n+1 curves
    [alpha[k] = numerator[k] / sum_j numerator[j]], pointwise over the
    grid of 141 pH values. *)
Theorem alpha_is_distribution_formula
  (pKaValues : list R) (c : R) (self : Acid) :
  Acid_init pKaValues c = Ok self ->
  let K := Spec.dissociation_constants pKaValues in
  let n := length pKaValues in
  pH = Array Spec.grid /\
  hydronium_concentration = Array (map Spec.hydronium Spec.grid) /\
  numerators_loop hydronium_concentration self
  = Ok (map (fun k =>
               Array (map (fun p => Spec.numerator K (Spec.hydronium p) k)
                          Spec.grid))
            (seq 0 (n + 1))) /\
  alpha self
  = Ok (map (fun k =>
               Array (map (fun p => Spec.alpha K (Spec.hydronium p) k)
                          Spec.grid))
            (seq 0 (n + 1))).
Proof.
  intros Hinit K n.
  split; [exact pH_points |].
  split; [exact hydronium_points |].
  split.
  - exact (numerators_of_init Hinit).
  - exact (alpha_of_init Hinit).
Qed.

(** C1, at the acid of the module's example. *)
Lemma alpha_is_distribution_formula_tyrosine :
  let K := Spec.dissociation_constants [2.17; 9.19; 10.47] in
  pH = Array Spec.grid /\
  hydronium_concentration = Array (map Spec.hydronium Spec.grid) /\
  numerators_loop hydronium_concentration tyrosine
  = Ok (map (fun k =>
               Array (map (fun p => Spec.numerator K (Spec.hydronium p) k)
                          Spec.grid))
            (seq 0 (3 + 1))) /\
  alpha tyrosine
  = Ok (map (fun k =>
               Array (map (fun p => Spec.alpha K (Spec.hydronium p) k)
                          Spec.grid))
            (seq 0 (3 + 1))).
Proof.
  apply (@alpha_is_distribution_formula [2.17; 9.19; 10.47] 0.1 tyrosine).
  reflexivity.
Defined.

(** ** Signs and sizes of the weights *)

Lemma Forall_firstn (P : R -> Prop) (k : nat) (l : list R) :
  Forall P l -> Forall P (firstn k l).
Proof.
  revert l. induction k as [| k IH]; intros l H; simpl.
  - constructor.
  - destruct H as [| x l Hx Hl]; constructor; [exact Hx | now apply IH].
Qed.

Lemma dissociation_constants_pos (pKaValues : list R) :
  Forall (fun x => 0 < x) (Spec.dissociation_constants pKaValues).
Proof.
  unfold Spec.dissociation_constants. apply Forall_forall.
  intros x Hx. apply in_map_iff in Hx. destruct Hx as [p [<- _]].
  apply Rpower_pos.
Qed.

Lemma hydronium_pos (p : R) : 0 < Spec.hydronium p.
Proof. apply Rpower_pos. Qed.

Lemma spec_numerator_pos (K : list R) (h : R) (k : nat) :
  Forall (fun x => 0 < x) K -> 0 < h -> 0 < Spec.numerator K h k.
Proof.
  intros HK Hh. unfold Spec.numerator.
  apply Rmult_lt_0_compat.
  - apply Rprod_pos. now apply Forall_firstn.
  - now apply pow_lt.
Qed.

Lemma spec_numerators_pos (K : list R) (h : R) (ks : list nat) :
  Forall (fun x => 0 < x) K -> 0 < h ->
  Forall (fun x => 0 < x) (map (Spec.numerator K h) ks).
Proof.
  intros HK Hh. apply Forall_forall. intros x Hx.
  apply in_map_iff in Hx. destruct Hx as [k [<- _]].
  now apply spec_numerator_pos.
Qed.

Lemma spec_total_pos (K : list R) (h : R) :
  Forall (fun x => 0 < x) K -> 0 < h ->
  0 < Rsum (map (Spec.numerator K h) (seq 0 (length K + 1))).
Proof.
  intros HK Hh. apply Rsum_pos.
  - now apply spec_numerators_pos.
  - rewrite Nat.add_1_r. discriminate.
Qed.

Lemma spec_alpha_bounds (K : list R) (h : R) (k : nat) :
  Forall (fun x => 0 < x) K -> 0 < h -> (k < length K + 1)%nat ->
  0 < Spec.alpha K h k <= 1.
Proof.
  intros HK Hh Hk. unfold Spec.alpha.
  pose proof (spec_total_pos HK Hh) as HD.
  pose proof (spec_numerator_pos k HK Hh) as HN.
  assert (HLE : Spec.numerator K h k
                <= Rsum (map (Spec.numerator K h) (seq 0 (length K + 1)))).
  { apply Rsum_bounds_member.
    - now apply spec_numerators_pos.
    - apply in_map, in_seq. lia. }
  split.
  - now apply Rdiv_lt_0_compat.
  - apply (Rmult_le_reg_r _ _ _ HD). unfold Rdiv.
    rewrite Rmult_assoc, Rinv_l by lra. lra.
Qed.

Lemma spec_alpha_below_one (K : list R) (h : R) (k : nat) :
  Forall (fun x => 0 < x) K -> 0 < h -> (k < length K + 1)%nat ->
  K <> [] -> Spec.alpha K h k < 1.
Proof.
  intros HK Hh Hk Hne. unfold Spec.alpha.
  pose proof (spec_total_pos HK Hh) as HD.
  assert (HLT : Spec.numerator K h k
                < Rsum (map (Spec.numerator K h) (seq 0 (length K + 1)))).
  { replace (Spec.numerator K h k)
      with (nth k (map (Spec.numerator K h) (seq 0 (length K + 1))) 0).
    - apply Rsum_exceeds_entry.
      + now apply spec_numerators_pos.
      + rewrite length_map, length_seq. destruct K; simpl; [congruence | lia].
      + now rewrite length_map, length_seq.
    - rewrite (nth_indep _ 0 (Spec.numerator K h 0%nat))
        by now rewrite length_map, length_seq.
      rewrite map_nth, seq_nth by exact Hk. reflexivity. }
  apply (Rmult_lt_reg_r _ _ _ HD). unfold Rdiv.
  rewrite Rmult_assoc, Rinv_l by lra. lra.
Qed.

Lemma spec_alpha_sum (K : list R) (h : R) :
  Forall (fun x => 0 < x) K -> 0 < h ->
  Rsum (map (Spec.alpha K h) (seq 0 (length K + 1))) = 1.
Proof.
  intros HK Hh. pose proof (spec_total_pos HK Hh) as HD.
  unfold Spec.alpha.
  rewrite <- (map_map (Spec.numerator K h) (fun x => x / _)).
  rewrite Rsum_scaled. field. lra.
Qed.

(** ** Reading the curves *)

Lemma item_curve (f : R -> R) (g : nat) :
  (g < length Spec.grid)%nat ->
  item (Array (map f Spec.grid)) g = f (nth g Spec.grid 0).
Proof.
  intros Hg. unfold item.
  rewrite (nth_indep _ 0 (f 0)) by now rewrite length_map.
  apply map_nth.
Qed.

Lemma length_grid : length Spec.grid = 141%nat.
Proof. unfold Spec.grid. now rewrite length_map, length_seq. Qed.

Lemma grid_point (g : nat) :
  (g < 141)%nat -> nth g Spec.grid 0 = INR g / 10.
Proof.
  intros Hg. unfold Spec.grid.
  rewrite (nth_indep _ 0 (INR 0 / 10)) by now rewrite length_map, length_seq.
  rewrite (map_nth (fun i => INR i / 10)), seq_nth by exact Hg.
  reflexivity.
Qed.

(** ** The fractions at a grid point *)

Lemma column_of_curves (F : nat -> R -> R) (ks : list nat) (g : nat) :
  (g < length Spec.grid)%nat ->
  column (map (fun k => Array (map (fun p => F k p) Spec.grid)) ks) g
  = map (fun k => F k (nth g Spec.grid 0)) ks.
Proof.
  intros Hg. unfold column. rewrite map_map.
  apply map_ext. intros k. now apply (item_curve (F k)).
Qed.

Lemma size_curve {A : Type} (f : R -> A) :
  size (Array (map f Spec.grid)) = size pH.
Proof. rewrite pH_points. unfold size. now rewrite length_map. Qed.

Lemma map_constant {A B : Type} (b : B) (l : list A) :
  map (fun _ => b) l = repeat b (length l).
Proof. induction l as [| x l IH]; simpl; [reflexivity | now rewrite IH]. Qed.

Lemma alpha_of_init_nil (c : R) (self : Acid) :
  Acid_init [] c = Ok self ->
  alpha self = Ok [Array (repeat 1 141)].
Proof.
  intros Hinit. rewrite (alpha_of_init Hinit).
  change (seq 0 (length (@nil R) + 1)) with [0%nat]. cbn [map].
  do 3 f_equal.
  rewrite <- length_grid, <- map_constant.
  apply map_ext. intros p.
  unfold Spec.alpha, Spec.numerator. simpl. field.
Qed.

(** C6.  With no pKa value, [alpha] returns exactly one curve, equal to 1
    at each of the 141 grid points. *)
Theorem alpha_without_pKa (c : R) (self : Acid) :
  Acid_init [] c = Ok self ->
  alpha self = Ok [Array (repeat 1 141)] /\ size pH = 141%nat.
Proof.
  intros Hinit. split; [exact (alpha_of_init_nil Hinit) | exact size_pH].
Qed.

Lemma alpha_without_pKa_unit_concentration :
  alpha {| pKa := []; Ka := []; Ca := 1 |} = Ok [Array (repeat 1 141)] /\
  size pH = 141%nat.
Proof.
  apply (@alpha_without_pKa 1). reflexivity.
Defined.

(** ** Logarithms of the concentrations *)

Lemma mul_by_scalar (a : ndarray R) (c : R) :
  Np.mul a (Scalar c) = Ok (ufunc (fun x => x * c) a).
Proof. destruct a; reflexivity. Qed.

Lemma log10_of_positive (x : R) : 0 < x -> Np.log10 x = Finite (ln x / ln 10).
Proof.
  intros Hx. unfold Np.log10. destruct (Rlt_dec 0 x); [reflexivity | lra].
Qed.

Lemma log10_arguments_of_alpha (self : Acid) (alphas : list (ndarray R)) :
  alpha self = Ok alphas ->
  log10_arguments self = Ok (map (ufunc (fun x => x * Ca self)) alphas).
Proof.
  intros H. unfold log10_arguments. rewrite H, bind_Ok.
  apply comprehension_total. intros a _. apply mul_by_scalar.
Qed.

Lemma log_concentrations_of_alpha (self : Acid) (alphas : list (ndarray R)) :
  alpha self = Ok alphas ->
  log_concentrations self
  = Ok (map (fun al => ufunc Np.log10 (ufunc (fun x => x * Ca self) al)) alphas).
Proof.
  intros H. unfold log_concentrations. rewrite H, bind_Ok.
  apply comprehension_total. intros a _. now rewrite mul_by_scalar.
Qed.

Lemma nth_curves (F : nat -> ndarray R) (m k : nat) :
  (k < m)%nat -> nth k (map F (seq 0 m)) (Scalar 0) = F k.
Proof.
  intros Hk.
  rewrite (nth_indep _ (Scalar 0) (F 0%nat)) by now rewrite length_map, length_seq.
  now rewrite (map_nth F), seq_nth.
Qed.


(** ** The monoprotic scenario: pKa = (4.76,), Ca = 0.05 *)

Lemma ln_10_ge_1 : 1 <= ln 10.
Proof.
  destruct (Rle_lt_dec 1 (ln 10)) as [H | H]; [exact H |].
  apply exp_increasing in H. rewrite exp_ln in H by lra.
  pose proof exp_le_3. lra.
Qed.

(** [10^x >= 1 + x] for [x >= 0]. *)
Lemma Rpower_10_lower (x : R) : 0 <= x -> 1 + x <= Rpower 10 x.
Proof.
  intros Hx. unfold Rpower.
  pose proof (exp_ineq1_le (x * ln 10)). pose proof ln_10_ge_1. nra.
Qed.

(** Lowering the pH by [q - p] raises the hydronium concentration by a
    factor of at least [1 + (q - p)]. *)
Lemma hydronium_ratio (p q : R) :
  p <= q -> (1 + (q - p)) * Spec.hydronium q <= Spec.hydronium p.
Proof.
  intros Hpq. unfold Spec.hydronium.
  replace (- p) with (- q + (q - p)) by lra.
  rewrite Rpower_plus.
  assert (H : 0 <= q - p) by lra. apply Rpower_10_lower in H.
  pose proof (Rpower_pos 10 (- q)). nra.
Qed.

Lemma fraction_away_from_half (h k : R) :
  0 < h -> 0 < k -> 1.04 * k <= h \/ 1.04 * h <= k ->
  1e-6 < Rabs (h / (h + k) - 0.5).
Proof.
  intros Hh Hk Hfar.
  assert (Hq : h = h / (h + k) * (h + k)) by (field; lra).
  set (a := h / (h + k)) in *.
  unfold Rabs. destruct (Rcase_abs (a - 0.5)); destruct Hfar; nra.
Qed.

Lemma grid_misses_4_76 : ~ In 4.76 Spec.grid.
Proof.
  unfold Spec.grid. intros H. apply in_map_iff in H.
  destruct H as [i [Hi _]]. rewrite INR_IZR_INZ in Hi.
  destruct (le_lt_dec i 47) as [Hle | Hgt].
  - assert (H : IZR (Z.of_nat i) <= IZR 47) by (apply IZR_le; lia). lra.
  - assert (H : IZR 48 <= IZR (Z.of_nat i)) by (apply IZR_le; lia). lra.
Qed.

Lemma acetic_alpha :
  alpha acetic
  = Ok [Array (map (fun p => Spec.hydronium p
                             / (Spec.hydronium p + Spec.hydronium 4.76))
                   Spec.grid);
        Array (map (fun p => Spec.hydronium 4.76
                             / (Spec.hydronium p + Spec.hydronium 4.76))
                   Spec.grid)].
Proof.
  rewrite (@alpha_of_init [4.76] 0.05 acetic) by reflexivity.
  change (seq 0 (length [4.76] + 1)) with [0%nat; 1%nat].
  change (Spec.dissociation_constants [4.76]) with [Spec.hydronium 4.76].
  cbn [map].
  assert (H0 : forall p,
             Spec.alpha [Spec.hydronium 4.76] (Spec.hydronium p) 0
             = Spec.hydronium p / (Spec.hydronium p + Spec.hydronium 4.76)).
  { intros p. unfold Spec.alpha, Spec.numerator. simpl.
    pose proof (hydronium_pos p). pose proof (hydronium_pos 4.76).
    field. lra. }
  assert (H1 : forall p,
             Spec.alpha [Spec.hydronium 4.76] (Spec.hydronium p) 1
             = Spec.hydronium 4.76 / (Spec.hydronium p + Spec.hydronium 4.76)).
  { intros p. unfold Spec.alpha, Spec.numerator. simpl.
    pose proof (hydronium_pos p). pose proof (hydronium_pos 4.76).
    field. lra. }
  rewrite (map_ext _ _ H0), (map_ext _ _ H1). reflexivity.
Qed.

(** C8 as stated fails on the module: 4.76 is not a point of the grid,
    and at no grid point is the first fraction within 1e-6 of 0.5. *)
Lemma acetic_never_half_on_grid :
  Acid_init [4.76] 0.05 = Ok acetic /\
  pH = Array Spec.grid /\
  ~ In 4.76 Spec.grid /\
  exists a0 a1,
    alpha acetic = Ok [a0; a1] /\
    forall g, (g < size pH)%nat -> 1e-6 < Rabs (item a0 g - 0.5).
Proof.
  split; [reflexivity |].
  split; [exact pH_points |].
  split; [exact grid_misses_4_76 |].
  do 2 eexists. split; [exact acetic_alpha |].
  intros g Hg. rewrite size_pH in Hg.
  rewrite (item_curve (fun p => Spec.hydronium p / (Spec.hydronium p + _)))
    by now rewrite length_grid.
  rewrite grid_point by exact Hg.
  apply fraction_away_from_half;
    [apply hydronium_pos | apply Rpower_pos |].
  rewrite INR_IZR_INZ.
  destruct (le_lt_dec g 47) as [Hle | Hgt].
  - left.
    assert (H : IZR (Z.of_nat g) <= IZR 47) by (apply IZR_le; lia).
    assert (Hp : IZR (Z.of_nat g) / 10 <= 4.76) by lra.
    pose proof (hydronium_ratio Hp). pose proof (hydronium_pos 4.76). nra.
  - right.
    assert (H : IZR 48 <= IZR (Z.of_nat g)) by (apply IZR_le; lia).
    assert (Hp : 4.76 <= IZR (Z.of_nat g) / 10) by lra.
    pose proof (hydronium_ratio Hp).
    pose proof (hydronium_pos (IZR (Z.of_nat g) / 10)). nra.
Qed.

(** C8, as the code has it.  Evaluated where the hydronium concentration
    is [10^(-4.76)], that is at pH 4.76, the two fractions of the
    monoprotic acid with pKa = (4.76,) and Ca = 0.05 are both 0.5, hence
    within 1e-6 of it; the module's own grid does not hold the value
    4.76. *)
Theorem acetic_half_at_pKa :
  Acid_init [4.76] 0.05 = Ok acetic /\
  ~ In 4.76 Spec.grid /\
  exists a0 a1,
    alpha_with (ufunc (fun x => Rpower 10 (- x)) (Array [4.76])) acetic
    = Ok [Array [a0]; Array [a1]] /\
    a0 = 0.5 /\ a1 = 0.5 /\
    Rabs (a0 - 0.5) <= 1e-6 /\ Rabs (a1 - 0.5) <= 1e-6.
Proof.
  split; [reflexivity |].
  split; [exact grid_misses_4_76 |].
  exists 0.5, 0.5.
  split.
  - cbn [ufunc map]. rewrite alpha_with_array.
    change (seq 0 (length (pKa acetic) + 1)) with [0%nat; 1%nat].
    cbn [map].
    pose proof (hydronium_pos 4.76) as Hpos.
    change (Rpower 10 (- (4.76))) with (Spec.hydronium 4.76).
    set (h := Spec.hydronium 4.76) in *.
    assert (E0 : numerator_at acetic 0 h / total_at acetic h = 0.5).
    { unfold total_at, acetic. simpl. unfold numerator_at. simpl.
      change (Rpower 10 (- (4.76))) with h. clearbody h.
      field_simplify_eq; lra. }
    assert (E1 : numerator_at acetic 1 h / total_at acetic h = 0.5).
    { unfold total_at, acetic. simpl. unfold numerator_at. simpl.
      change (Rpower 10 (- (4.76))) with h. clearbody h.
      field_simplify_eq; lra. }
    now rewrite E0, E1.
  - replace (0.5 - 0.5) with 0 by lra. rewrite Rabs_R0.
    repeat split; lra.
Qed.

Close Scope R_scope.

(** ** The labels of the species *)

Lemma append_pure_loop {A B : Type} (f : A -> B) (l : list A) (acc : list B) :
  fold_left (fun ys i => ys ++ [f i]) l acc = acc ++ map f l.
Proof.
  revert acc. induction l as [| x l IH]; intros acc; simpl.
  - now rewrite app_nil_r.
  - rewrite IH. now rewrite <- app_assoc.
Qed.

Lemma labels_loop_map (number_of_species : nat) :
  labels_loop number_of_species
  = map (fun i => label (Z.of_nat number_of_species) (Z.of_nat i))
        (seq 1 number_of_species).
Proof. unfold labels_loop. now rewrite append_pure_loop. Qed.

Lemma length_labels_loop (number_of_species : nat) :
  length (labels_loop number_of_species) = number_of_species.
Proof. now rewrite labels_loop_map, length_map, length_seq. Qed.

(** [formulas] on a constructed acid: the labels are those of n+1 species. *)
Lemma formulas_of_init (from_formula : string -> Substance)
  (pKaValues : list R) (c : R) (self : Acid) (output : string) :
  Acid_init pKaValues c = Ok self ->
  formulas from_formula self output
  = let labels := labels_loop (length pKaValues + 1) in
    if (output =? "raw")%string then
      Ok (map (replace "B" "A") labels)
    else if (output =? "latex")%string then
      Ok (map (replace "B" "A")
              (map (fun formula => latex_name (from_formula formula)) labels))
    else if (output =? "html")%string then
      Ok (map (replace "B" "A")
              (map (fun formula => html_name (from_formula formula)) labels))
    else Raise ValueError.
Proof.
  intros Hinit. unfold formulas.
  rewrite (alpha_of_init Hinit), bind_Ok.
  now rewrite length_map, length_seq.
Qed.

(** C4 as stated fails: the last raw label of a diprotic acid is ["A-2"],
    not ["A2-"]. *)
Lemma diprotic_raw_labels_not_as_stated :
  Acid_init [6.35; 10.33]%R 0.1%R = Ok carbonic /\
  formulas plain_names carbonic "raw"
  <> Ok ["H2A"; "HA-"; "A2-"]%string.
Proof.
  split; [reflexivity |].
  rewrite (@formulas_of_init plain_names [6.35; 10.33]%R 0.1%R carbonic "raw")
    by reflexivity.
  vm_compute. discriminate.
Qed.

(** C4, as the code has it.  For an acid with exactly two pKa values the
    raw labels are, in order, ["H2A"], ["HA-"], ["A-2"]: a charge other
    than 0 and -1 is printed as the signed integer. *)
Theorem diprotic_raw_labels (from_formula : string -> Substance)
  (pKa1 pKa2 c : R) (self : Acid) :
  Acid_init [pKa1; pKa2] c = Ok self ->
  formulas from_formula self "raw" = Ok ["H2A"; "HA-"; "A-2"]%string.
Proof.
  intros Hinit. rewrite (formulas_of_init from_formula "raw" Hinit).
  reflexivity.
Qed.

Lemma diprotic_raw_labels_carbonic :
  formulas plain_names carbonic "raw" = Ok ["H2A"; "HA-"; "A-2"]%string.
Proof.
  apply (@diprotic_raw_labels plain_names 6.35%R 10.33%R 0.1%R carbonic).
  reflexivity.
Defined.

(** C5 as stated fails: with n = 2 pKa values the first species gets
    charge 0 from the code, while [(n+1) - (n + i - 1)] is 1 at i = 1. *)
Lemma charge_formula_not_as_stated :
  let n := 2%Z in
  let i := 1%Z in
  charge (n + 1) i = 0%Z /\
  charge (n + 1) i <> ((n + 1) - (n + i - 1))%Z.
Proof. vm_compute. split; [reflexivity | discriminate]. Qed.

(** C5, as the code has it.  With n+1 species, the species at 1-indexed
    position i gets charge [(n+1) - ((n+1) + i - 1) = 1 - i]: 0 for the
    first, one less for each next one, [-n] for the last; and it is the
    label that line 69 (or 65, 67) builds that is put at position i. *)
Theorem charge_of_position (n : nat) :
  (forall i : Z,
      charge (Z.of_nat n + 1) i = ((Z.of_nat n + 1) - ((Z.of_nat n + 1) + i - 1))%Z /\
      charge (Z.of_nat n + 1) i = (1 - i)%Z /\
      charge (Z.of_nat n + 1) (i + 1) = (charge (Z.of_nat n + 1) i - 1)%Z) /\
  charge (Z.of_nat n + 1) 1 = 0%Z /\
  charge (Z.of_nat n + 1) (Z.of_nat n + 1) = (- Z.of_nat n)%Z /\
  (forall i : nat, (1 <= i <= n + 1)%nat ->
     nth_error (labels_loop (n + 1)) (i - 1)
     = Some (label (Z.of_nat (n + 1)) (Z.of_nat i))).
Proof.
  unfold charge. repeat split; try lia.
  intros i Hi. rewrite labels_loop_map.
  rewrite nth_error_map, nth_error_nth' with (d := 0%nat)
    by (rewrite length_seq; lia).
  rewrite seq_nth by lia. simpl. do 3 f_equal. lia.
Qed.

(** C9.  For every constructed acid, [formulas] raises [ValueError] (the
    specification's InvalidArgumentError) on any representation other than
    ["raw"], ["latex"] and ["html"], and returns n+1 strings on each of
    these three. *)
Theorem formulas_representations (from_formula : string -> Substance)
  (pKaValues : list R) (c : R) (self : Acid) (output : string) :
  Acid_init pKaValues c = Ok self ->
  (output <> "raw"%string -> output <> "latex"%string ->
   output <> "html"%string ->
   formulas from_formula self output = Raise ValueError) /\
  (output = "raw"%string \/ output = "latex"%string \/
   output = "html"%string ->
   exists labels,
     formulas from_formula self output = Ok labels /\
     length labels = (length pKaValues + 1)%nat).
Proof.
  intros Hinit. rewrite (formulas_of_init from_formula output Hinit).
  cbv zeta. split.
  - intros Hraw Hlatex Hhtml.
    apply String.eqb_neq in Hraw, Hlatex, Hhtml.
    now rewrite Hraw, Hlatex, Hhtml.
  - intros [-> | [-> | ->]]; cbn [String.eqb Ascii.eqb Bool.eqb];
      eexists; (split; [reflexivity |]);
      now rewrite ?length_map, length_labels_loop.
Qed.

Lemma formulas_representations_tyrosine :
  formulas plain_names tyrosine "bogus" = Raise ValueError /\
  exists labels,
    formulas plain_names tyrosine "html" = Ok labels /\
    length labels = (3 + 1)%nat.
Proof.
  split.
  - destruct (@formulas_representations plain_names
                [2.17; 9.19; 10.47]%R 0.1%R tyrosine "bogus" eq_refl)
      as [Hbogus _].
    apply Hbogus; discriminate.
  - destruct (@formulas_representations plain_names
                [2.17; 9.19; 10.47]%R 0.1%R tyrosine "html" eq_refl)
      as [_ Hhtml].
    apply Hhtml. right. right. reflexivity.
Defined.

(** ** Construction *)

(** C2 as stated fails: constructing with concentration 0 (or a negative
    one) returns an acid and raises nothing. *)
Lemma init_accepts_non_positive_concentration :
  (0 <= 0)%R /\ (- (1) <= 0)%R /\
  (forall e, Acid_init [4.76]%R 0%R <> Raise e) /\
  (forall e, Acid_init [4.76]%R (- (1))%R <> Raise e).
Proof.
  split; [lra |]. split; [lra |].
  split; intros e; discriminate.
Qed.

(** C2, as the code has it.  Construction checks nothing: for every pKa
    sequence and every concentration, positive or not, it returns an acid
    holding the pKa values, their dissociation constants and the
    concentration as given. *)
Theorem init_never_raises (pKaValues : list R) (c : R) :
  exists self,
    Acid_init pKaValues c = Ok self /\
    pKa self = pKaValues /\
    Ka self = map (fun x => Rpower 10 (- x)) pKaValues /\
    Ca self = c.
Proof.
  eexists. split; [reflexivity |]. now simpl.
Qed.

Open Scope R_scope.

(** * Further properties of the module *)

(** ** The grid and the water equilibrium (lines 8 to 12) *)

Lemma item_hydronium (g : nat) :
  (g < 141)%nat ->
  item hydronium_concentration g = Spec.hydronium (INR g / 10).
Proof.
  intros Hg. rewrite hydronium_points.
  rewrite (item_curve Spec.hydronium) by now rewrite length_grid.
  now rewrite grid_point.
Qed.

Lemma item_pH (g : nat) : (g < 141)%nat -> item pH g = INR g / 10.
Proof.
  intros Hg. rewrite pH_points.
  rewrite <- (map_id Spec.grid), (item_curve (fun p => p))
    by now rewrite length_grid.
  now apply grid_point.
Qed.

Lemma INR_below (g m : nat) : (g < m)%nat -> 0 <= INR g <= INR m - 1.
Proof.
  intros Hg. split; [apply pos_INR |].
  assert (H : INR (g + 1) <= INR m) by (apply le_INR; lia).
  rewrite plus_INR in H. simpl in H. lra.
Qed.

Lemma Rpower_10_monotone (x y : R) : x <= y -> Rpower 10 x <= Rpower 10 y.
Proof.
  intros Hxy. replace y with (x + (y - x)) by lra.
  rewrite Rpower_plus.
  assert (H : 0 <= y - x) by lra. apply Rpower_10_lower in H.
  pose proof (Rpower_pos 10 x). nra.
Qed.

(** The grid has 141 points, the g-th being g/10: it starts at 0, moves
    by 0.1, ends at 14 (the stop value 14.1 is left out), and on it the
    hydronium concentration runs between [10^(-14)] and 1. *)
Theorem grid_values :
  size pH = 141%nat /\
  size hydronium_concentration = 141%nat /\
  forall g, (g < size pH)%nat ->
    item pH g = INR g / 10 /\
    0 <= item pH g <= 14 /\
    item pH g < 14.1 /\
    ((g + 1 < size pH)%nat -> item pH (g + 1) = item pH g + 0.1) /\
    item hydronium_concentration g = Rpower 10 (- item pH g) /\
    Rpower 10 (- (14)) <= item hydronium_concentration g <= 1.
Proof.
  split; [exact size_pH |].
  split; [rewrite hydronium_points; unfold size;
          now rewrite length_map, length_grid |].
  intros g Hg. rewrite size_pH in *.
  rewrite (item_pH Hg), (item_hydronium Hg).
  pose proof (INR_below Hg) as Hb.
  change (INR 141) with (INR 140 + 1) in Hb.
  assert (H140 : INR 140 = 140) by (rewrite INR_IZR_INZ; reflexivity).
  rewrite H140 in Hb.
  split; [reflexivity |].
  split; [lra |].
  split; [lra |].
  split.
  - intros Hg'. rewrite (item_pH Hg'), plus_INR. simpl. lra.
  - split; [reflexivity |]. unfold Spec.hydronium. split.
    + apply Rpower_10_monotone. lra.
    + rewrite <- (Rpower_O 10) by lra. apply Rpower_10_monotone. lra.
Qed.

(** At every grid point [pH + pOH = pKw = 14] and the product of the
    hydronium and hydroxide concentrations is [10^(-14)]. *)
Theorem water_ion_product :
  size pOH = size pH /\
  size hydroxide_concentration = size pH /\
  forall g, (g < size pH)%nat ->
    item pH g + item pOH g = pKw /\
    item hydronium_concentration g * item hydroxide_concentration g
    = Rpower 10 (- pKw).
Proof.
  unfold hydroxide_concentration, pOH.
  rewrite hydronium_points, pH_points. cbn [ufunc size].
  rewrite !length_map.
  split; [reflexivity |]. split; [reflexivity |].
  intros g Hg. rewrite map_map.
  rewrite <- (map_id Spec.grid) at 1.
  rewrite (item_curve (fun p => p)), (item_curve (fun p => pKw - p)),
          (item_curve Spec.hydronium),
          (item_curve (fun p => Rpower 10 (- (pKw - p)))) by exact Hg.
  split; [lra |].
  unfold Spec.hydronium. rewrite <- Rpower_plus. f_equal. lra.
Qed.

(** ** [alpha] on any hydronium array *)

(** [alpha] raises nothing, whatever one-dimensional hydronium array it
    reads and whatever the fields of the acid: it returns one array per
    species, [pKa.size + 1] of them, each as long as the hydronium
    array. *)
Theorem alpha_with_never_raises (hc : list R) (self : Acid) :
  exists numerators alphas,
    numerators_loop (Array hc) self = Ok numerators /\
    alpha_with (Array hc) self = Ok alphas /\
    length numerators = (length (pKa self) + 1)%nat /\
    length alphas = (length (pKa self) + 1)%nat /\
    Forall (fun a => size a = length hc) numerators /\
    Forall (fun a => size a = length hc) alphas.
Proof.
  do 2 eexists.
  split; [apply numerators_loop_array |].
  split; [apply alpha_with_array |].
  rewrite !length_map, !length_seq.
  split; [reflexivity |]. split; [reflexivity |].
  split; apply Forall_forall; intros a Ha; apply in_map_iff in Ha;
    destruct Ha as [k [<- _]]; unfold size; now rewrite length_map.
Qed.

(** ** Neighbouring weights *)

Lemma Rprod_firstn_S (K : list R) (k : nat) :
  (k < length K)%nat ->
  Rprod (firstn (S k) K) = Rprod (firstn k K) * nth k K 0.
Proof.
  revert K. induction k as [| k IH]; intros K Hk;
    (destruct K as [| x K]; simpl in Hk; [lia |]).
  - simpl. lra.
  - change (firstn (S (S k)) (x :: K)) with (x :: firstn (S k) K).
    change (firstn (S k) (x :: K)) with (x :: firstn k K).
    change (nth (S k) (x :: K) 0) with (nth k K 0).
    cbn [Rprod fold_right]. fold (Rprod (firstn (S k) K)).
    fold (Rprod (firstn k K)). rewrite IH by lia. lra.
Qed.

Lemma spec_numerator_step (K : list R) (h : R) (k : nat) :
  (k < length K)%nat ->
  Spec.numerator K h (S k) * h = nth k K 0 * Spec.numerator K h k.
Proof.
  intros Hk. unfold Spec.numerator.
  rewrite Rprod_firstn_S by exact Hk.
  replace (length K - k)%nat with (S (length K - S k)) by lia.
  simpl. lra.
Qed.

Lemma item_of_curves (F : nat -> R -> R) (m k g : nat) :
  (k < m)%nat -> (g < 141)%nat ->
  item (nth k (map (fun k => Array (map (fun p => F k p) Spec.grid))
                   (seq 0 m)) (Scalar 0)) g
  = F k (INR g / 10).
Proof.
  intros Hk Hg.
  rewrite (nth_curves (fun k => Array (map (fun p => F k p) Spec.grid)))
    by exact Hk.
  rewrite (item_curve (F k)) by now rewrite length_grid.
  now rewrite grid_point.
Qed.

Lemma length_dissociation_constants (pKaValues : list R) :
  length (Spec.dissociation_constants pKaValues) = length pKaValues.
Proof. unfold Spec.dissociation_constants. now rewrite length_map. Qed.

(** ** Concentrations and their logarithms *)

Lemma item_of_scaled_curves (F : nat -> R -> R) (c : R) (m k g : nat) :
  (k < m)%nat -> (g < 141)%nat ->
  item (nth k (map (ufunc (fun x => x * c))
                   (map (fun k => Array (map (fun p => F k p) Spec.grid))
                        (seq 0 m))) (Scalar 0)) g
  = F k (INR g / 10) * c.
Proof.
  intros Hk Hg. rewrite map_map. cbn [ufunc].
  rewrite (nth_curves
             (fun k => Array (map (fun x => x * c)
                                  (map (fun p => F k p) Spec.grid))))
    by exact Hk.
  rewrite map_map.
  rewrite (item_curve (fun p => F k p * c)) by now rewrite length_grid.
  now rewrite grid_point.
Qed.

Lemma log_concentrations_of_init (pKaValues : list R) (c : R) (self : Acid) :
  Acid_init pKaValues c = Ok self ->
  log_concentrations self
  = Ok (map (fun k =>
               Array (map (fun p =>
                             Np.log10
                               (Spec.alpha
                                  (Spec.dissociation_constants pKaValues)
                                  (Spec.hydronium p) k * c))
                          Spec.grid))
            (seq 0 (length pKaValues + 1))).
Proof.
  intros Hinit.
  destruct (init_fields Hinit) as (_ & _ & HCa).
  rewrite (log_concentrations_of_alpha _ (alpha_of_init Hinit)).
  f_equal. rewrite map_map. apply map_ext. intros k.
  cbn [ufunc]. rewrite !map_map. now rewrite HCa.
Qed.

(** [log_concentrations] raises nothing, whatever the fields of the
    acid: it returns one array per species, [pKa.size + 1] of them, each
    with one value per grid point. *)
Theorem log_concentrations_never_raises (self : Acid) :
  exists logs,
    log_concentrations self = Ok logs /\
    length logs = (length (pKa self) + 1)%nat /\
    Forall (fun a => size a = size pH) logs.
Proof.
  assert (HA : alpha self
               = Ok (map (fun i =>
                            Array (map (fun h => numerator_at self i h
                                                 / total_at self h)
                                       (map Spec.hydronium Spec.grid)))
                         (seq 0 (length (pKa self) + 1)))).
  { unfold alpha. rewrite hydronium_points. apply alpha_with_array. }
  eexists. split; [exact (log_concentrations_of_alpha _ HA) |].
  split; [now rewrite !length_map, length_seq |].
  apply Forall_forall. intros a Ha.
  apply in_map_iff in Ha. destruct Ha as [al [<- Hal]].
  apply in_map_iff in Hal. destruct Hal as [k [<- _]].
  cbn [ufunc size]. rewrite !length_map, length_grid. now rewrite size_pH.
Qed.

(** ** Acids within the working range *)

Lemma hydronium_14_bounds : 0 < Spec.hydronium 14 <= 1.
Proof.
  split; [apply hydronium_pos |].
  unfold Spec.hydronium. rewrite <- (Rpower_O 10) by lra.
  apply Rpower_10_monotone. lra.
Qed.

Lemma constants_in_range (pKaValues : list R) :
  Forall (fun p => 0 <= p <= 14) pKaValues ->
  Forall (fun x => Spec.hydronium 14 <= x <= 1)
         (Spec.dissociation_constants pKaValues).
Proof.
  intros H. unfold Spec.dissociation_constants.
  induction H as [| p l Hp _ IH]; simpl; constructor; [| exact IH].
  unfold Spec.hydronium. split.
  - apply Rpower_10_monotone. lra.
  - rewrite <- (Rpower_O 10) by lra. apply Rpower_10_monotone. lra.
Qed.

Lemma hydronium_in_range (g : nat) :
  (g < 141)%nat ->
  Spec.hydronium 14 <= Spec.hydronium (INR g / 10) <= 1.
Proof.
  intros Hg. pose proof (INR_below Hg) as Hb.
  change (INR 141) with (INR 140 + 1) in Hb.
  assert (H140 : INR 140 = 140) by (rewrite INR_IZR_INZ; reflexivity).
  rewrite H140 in Hb. unfold Spec.hydronium. split.
  - apply Rpower_10_monotone. lra.
  - rewrite <- (Rpower_O 10) by lra. apply Rpower_10_monotone. lra.
Qed.

Lemma Rprod_in_range (e : R) (l : list R) :
  0 < e -> Forall (fun x => e <= x <= 1) l ->
  e ^ length l <= Rprod l <= 1.
Proof.
  intros He H. induction H as [| x l Hx _ IH]; simpl.
  - lra.
  - assert (0 < e ^ length l) by now apply pow_lt.
    split; nra.
Qed.

Lemma pow_in_range (e h : R) (m : nat) :
  0 < e -> e <= h <= 1 -> e ^ m <= h ^ m <= 1.
Proof.
  intros He Hh. split.
  - apply pow_incr. lra.
  - rewrite <- (pow1 m). apply pow_incr. lra.
Qed.

Lemma Forall_range_positive (e : R) (l : list R) :
  0 < e -> Forall (fun x => e <= x <= 1) l -> Forall (fun x => 0 < x) l.
Proof.
  intros He H. induction H as [| x l Hx _ IH]; constructor; [lra | exact IH].
Qed.

(** Every weight lies between [e^n] and 1 when the constants and the
    hydronium concentration lie between [e] and 1. *)
Lemma spec_numerator_in_range (e : R) (K : list R) (h : R) (k : nat) :
  0 < e -> Forall (fun x => e <= x <= 1) K -> e <= h <= 1 ->
  (k <= length K)%nat ->
  e ^ length K <= Spec.numerator K h k <= 1.
Proof.
  intros He HK Hh Hk. unfold Spec.numerator.
  pose proof (Rprod_in_range He (Forall_firstn k HK)) as HP.
  rewrite length_firstn, Nat.min_l in HP by exact Hk.
  pose proof (pow_in_range (length K - k) He Hh) as HH.
  replace (length K) with (k + (length K - k))%nat at 1 by lia.
  rewrite pow_add.
  assert (0 < e ^ k) by now apply pow_lt.
  assert (0 < e ^ (length K - k)) by now apply pow_lt.
  split; nra.
Qed.

Lemma Rsum_at_most_length (l : list R) :
  Forall (fun x => x <= 1) l -> Rsum l <= INR (length l).
Proof.
  induction 1 as [| x l Hx _ IH].
  - simpl. lra.
  - change (Rsum (x :: l)) with (x + Rsum l).
    change (length (x :: l)) with (S (length l)). rewrite S_INR. lra.
Qed.

Lemma spec_total_in_range (e : R) (K : list R) (h : R) :
  0 < e -> Forall (fun x => e <= x <= 1) K -> e <= h <= 1 ->
  e ^ length K
  <= Rsum (map (Spec.numerator K h) (seq 0 (length K + 1)))
  <= INR (length K + 1).
Proof.
  intros He HK Hh.
  pose proof (Forall_range_positive He HK) as Hpos.
  assert (Hh0 : 0 < h) by lra.
  split.
  - apply Rle_trans with (Spec.numerator K h 0).
    + apply (spec_numerator_in_range He HK Hh). lia.
    + apply Rsum_bounds_member.
      * now apply spec_numerators_pos.
      * apply in_map, in_seq. lia.
  - assert (Hlen : length (map (Spec.numerator K h) (seq 0 (length K + 1)))
                   = (length K + 1)%nat)
      by now rewrite length_map, length_seq.
    rewrite <- Hlen at 2.
    apply Rsum_at_most_length. apply Forall_forall. intros x Hx.
    apply in_map_iff in Hx. destruct Hx as [k [<- Hk]]. apply in_seq in Hk.
    apply (spec_numerator_in_range He HK Hh). lia.
Qed.

(** [(10^(-14))^n >= 10^(-280)] for [n <= 20]. *)
Lemma low_power_floor (n : nat) :
  (n <= 20)%nat -> Rpower 10 (- (280)) <= Spec.hydronium 14 ^ n.
Proof.
  intros Hn. pose proof hydronium_14_bounds as [He He1].
  apply Rle_trans with (Spec.hydronium 14 ^ 20).
  - rewrite <- (Rpower_pow 20) by exact He.
    unfold Spec.hydronium. rewrite Rpower_mult.
    apply Rpower_10_monotone.
    assert (H20 : INR 20 = 20) by (rewrite INR_IZR_INZ; reflexivity).
    rewrite H20. lra.
  - replace 20%nat with (n + (20 - n))%nat by lia. rewrite pow_add.
    assert (H1 : 0 < Spec.hydronium 14 ^ n) by now apply pow_lt.
    assert (H2 : Spec.hydronium 14 ^ (20 - n) <= 1).
    { rewrite <- (pow1 (20 - n)). apply pow_incr. lra. }
    nra.
Qed.

Lemma Rsum_two_entries (l : list R) (i j : nat) :
  Forall (fun x => 0 < x) l -> (i < j)%nat -> (j < length l)%nat ->
  nth i l 0 + nth j l 0 <= Rsum l.
Proof.
  intros H. revert i j.
  induction H as [| x l Hx Hl IH]; intros i j Hij Hj; simpl in Hj; [lia |].
  destruct j as [| j]; [lia |].
  change (Rsum (x :: l)) with (x + Rsum l).
  change (nth (S j) (x :: l) 0) with (nth j l 0).
  destruct i as [| i].
  - change (nth 0 (x :: l) 0) with x.
    assert (nth j l 0 <= Rsum l)
      by (apply Rsum_bounds_member; [exact Hl | apply nth_In; lia]).
    lra.
  - change (nth (S i) (x :: l) 0) with (nth i l 0).
    assert (nth i l 0 + nth j l 0 <= Rsum l) by (apply IH; lia).
    lra.
Qed.

Lemma nth_spec_numerators (K : list R) (h : R) (m k : nat) :
  (k < m)%nat ->
  nth k (map (Spec.numerator K h) (seq 0 m)) 0 = Spec.numerator K h k.
Proof.
  intros Hk.
  rewrite (nth_indep _ 0 (Spec.numerator K h 0%nat))
    by now rewrite length_map, length_seq.
  now rewrite map_nth, seq_nth.
Qed.

(** With at least one constant, a neighbouring weight is at least [e]
    times the weight, so that no fraction exceeds [1 / (1 + e)]. *)
Lemma spec_alpha_margin (e : R) (K : list R) (h : R) (k : nat) :
  0 < e -> Forall (fun x => e <= x <= 1) K -> e <= h <= 1 ->
  K <> [] -> (k < length K + 1)%nat ->
  Spec.alpha K h k * (1 + e) <= 1.
Proof.
  intros He HK Hh Hne Hk.
  pose proof (Forall_range_positive He HK) as Hpos.
  assert (Hh0 : 0 < h) by lra.
  assert (Hn : (1 <= length K)%nat) by (destruct K; simpl; [congruence | lia]).
  pose proof (spec_total_pos Hpos Hh0) as HD.
  pose proof (spec_numerators_pos (seq 0 (length K + 1)) Hpos Hh0) as Hall.
  set (D := Rsum (map (Spec.numerator K h) (seq 0 (length K + 1)))) in *.
  assert (Hx : 0 < Spec.numerator K h k) by now apply spec_numerator_pos.
  assert (Hnear : Spec.numerator K h k * (1 + e) <= D).
  { destruct (Nat.eq_dec k (length K)) as [-> | Hlt].
    - (* the last species: its neighbour is the one before *)
      set (j := (length K - 1)%nat).
      assert (Hj : (j < length K)%nat) by (unfold j; lia).
      pose proof (@spec_numerator_step K h j Hj) as Hstep.
      replace (S j) with (length K) in Hstep by (unfold j; lia).
      assert (HKj : e <= nth j K 0 <= 1).
      { apply (proj1 (Forall_forall _ K) HK). now apply nth_In. }
      assert (Hxj : 0 < Spec.numerator K h j) by now apply spec_numerator_pos.
      assert (Htwo : Spec.numerator K h j + Spec.numerator K h (length K) <= D).
      { rewrite <- (@nth_spec_numerators K h (length K + 1) j) by lia.
        rewrite <- (@nth_spec_numerators K h (length K + 1) (length K)) by lia.
        apply Rsum_two_entries;
          [exact Hall | exact Hj | rewrite length_map, length_seq; lia]. }
      nra.
    - (* any other species: its neighbour is the next one *)
      assert (Hk' : (k < length K)%nat) by lia.
      pose proof (@spec_numerator_step K h k Hk') as Hstep.
      assert (HKk : e <= nth k K 0 <= 1).
      { apply (proj1 (Forall_forall _ K) HK). now apply nth_In. }
      assert (Hxs : 0 < Spec.numerator K h (S k)) by now apply spec_numerator_pos.
      assert (Htwo : Spec.numerator K h k + Spec.numerator K h (S k) <= D).
      { rewrite <- (@nth_spec_numerators K h (length K + 1) k) by lia.
        rewrite <- (@nth_spec_numerators K h (length K + 1) (S k)) by lia.
        apply Rsum_two_entries;
          [exact Hall | lia | rewrite length_map, length_seq; lia]. }
      nra. }
  unfold Spec.alpha. fold D.
  apply (Rmult_le_reg_r D); [exact HD |].
  replace (Spec.numerator K h k / D * (1 + e) * D)
    with (Spec.numerator K h k * (1 + e)) by (field; lra).
  lra.
Qed.

Lemma spec_alpha_floor (K : list R) (h : R) (k : nat) :
  Forall (fun x => Spec.hydronium 14 <= x <= 1) K ->
  Spec.hydronium 14 <= h <= 1 ->
  (length K <= 20)%nat -> (k < length K + 1)%nat ->
  Rpower 10 (- (280)) / 21 <= Spec.alpha K h k.
Proof.
  intros HK Hh Hn Hk. pose proof hydronium_14_bounds as [He _].
  pose proof (spec_total_in_range He HK Hh) as [HD1 HD2].
  assert (Hx : Spec.hydronium 14 ^ length K <= Spec.numerator K h k)
    by (apply (spec_numerator_in_range He HK Hh); lia).
  pose proof (low_power_floor Hn) as Hfloor.
  assert (H21 : INR (length K + 1) <= 21).
  { replace 21 with (INR 21) by (rewrite INR_IZR_INZ; reflexivity).
    apply le_INR. lia. }
  assert (Hr : 0 < Rpower 10 (- (280))) by apply Rpower_pos.
  unfold Spec.alpha.
  set (D := Rsum (map (Spec.numerator K h) (seq 0 (length K + 1)))) in *.
  set (x := Spec.numerator K h k) in *.
  assert (HD : 0 < D) by lra.
  apply (Rmult_le_reg_r D); [exact HD |].
  replace (x / D * D) with x by (field; lra).
  nra.
Qed.

(** What the construction gives for an acid of the working range. *)
Lemma range_of_init (pKaValues : list R) :
  working_range pKaValues ->
  Forall (fun x => Spec.hydronium 14 <= x <= 1)
         (Spec.dissociation_constants pKaValues) /\
  (length (Spec.dissociation_constants pKaValues) <= 20)%nat.
Proof.
  intros [Hn Hp]. split; [now apply constants_in_range |].
  now rewrite length_dissociation_constants.
Qed.

Lemma numerators_within_doubles (pKaValues : list R) (k g : nat) :
  working_range pKaValues ->
  (k < length pKaValues + 1)%nat -> (g < 141)%nat ->
  Rpower 10 (- (280))
  <= Spec.numerator (Spec.dissociation_constants pKaValues)
                    (Spec.hydronium (INR g / 10)) k
  <= 1.
Proof.
  intros Hrange Hk Hg. destruct (range_of_init Hrange) as [HK Hn].
  pose proof hydronium_14_bounds as [He _].
  pose proof (hydronium_in_range Hg) as Hh.
  assert (Hk' : (k <= length (Spec.dissociation_constants pKaValues))%nat)
    by (rewrite length_dissociation_constants; lia).
  pose proof (spec_numerator_in_range He HK Hh Hk') as [H1 H2].
  pose proof (low_power_floor Hn). lra.
Qed.

Lemma total_within_doubles (pKaValues : list R) (g : nat) :
  working_range pKaValues -> (g < 141)%nat ->
  Rpower 10 (- (280))
  <= Rsum (map (Spec.numerator (Spec.dissociation_constants pKaValues)
                               (Spec.hydronium (INR g / 10)))
               (seq 0 (length pKaValues + 1)))
  <= 21.
Proof.
  intros Hrange Hg. destruct (range_of_init Hrange) as [HK Hn].
  pose proof hydronium_14_bounds as [He _].
  pose proof (hydronium_in_range Hg) as Hh.
  pose proof (spec_total_in_range He HK Hh) as [H1 H2].
  rewrite length_dissociation_constants in *.
  pose proof (low_power_floor (proj1 Hrange)) as Hfloor.
  assert (H21 : INR (length pKaValues + 1) <= 21).
  { replace 21 with (INR 21) by (rewrite INR_IZR_INZ; reflexivity).
    apply le_INR. destruct Hrange. lia. }
  lra.
Qed.


Lemma tyrosine_in_range : working_range [2.17; 9.19; 10.47].
Proof.
  split; [simpl; lia |]. repeat constructor; lra.
Qed.





Lemma tenth_above_floor : Rpower 10 (- (20)) <= 0.1.
Proof.
  apply Rle_trans with (Rpower 10 (- (1))).
  - apply Rpower_10_monotone. lra.
  - rewrite Rpower_Ropp, Rpower_1 by lra. lra.
Qed.


(** ** Doubles outside the working range *)

Section Doubles.

Import Float64.

#[local] Set Warnings "-inexact-float".
#[local] Open Scope float_scope.

Lemma zip_with_map_any {A T : Type} (f : T -> T -> T) (a b : A -> T)
  (g : list A) :
  zip_with f (map a g) (map b g) = map (fun x => f (a x) (b x)) g.
Proof.
  induction g as [| x g IH]; simpl; [reflexivity | now rewrite IH].
Qed.

Lemma broadcast_same_grid_any {A T : Type} (f : T -> T -> T) (a b : A -> T)
  (g : list A) :
  broadcast f (Array (map a g)) (Array (map b g))
  = Ok (Array (map (fun x => f (a x) (b x)) g)).
Proof.
  unfold broadcast. rewrite !length_map, Nat.eqb_refl.
  now rewrite zip_with_map_any.
Qed.

Lemma broadcast_array_scalar_any {A T : Type} (f : T -> T -> T) (a : A -> T)
  (g : list A) (y : T) :
  broadcast f (Array (map a g)) (Scalar y)
  = Ok (Array (map (fun x => f (a x) y) g)).
Proof. unfold broadcast. now rewrite map_map. Qed.

Lemma broadcast_scalar_array_any {A T : Type} (f : T -> T -> T) (b : A -> T)
  (g : list A) (x : T) :
  broadcast f (Scalar x) (Array (map b g))
  = Ok (Array (map (fun y => f x (b y)) g)).
Proof. unfold broadcast. now rewrite map_map. Qed.

Lemma reduce_mul64_scalars {A : Type} (l : list float) (a : A -> float)
  (g : list A) :
  reduce mul64 (map Scalar l) (Array (map a g))
  = Ok (Array (map (fun x => fold_left PrimFloat.mul l (a x)) g)).
Proof.
  unfold reduce. revert a.
  induction l as [| k l IH]; intros a; cbn [fold_left map bind].
  - reflexivity.
  - unfold mul64 at 2. rewrite broadcast_array_scalar_any.
    apply (IH (fun x => a x * k)).
Qed.

Lemma sum64_from_array {A : Type} (fs : list (A -> float)) (a : A -> float)
  (g : list A) :
  fold_left (fun acc x => s <- acc ;; add64 s x)
            (map (fun f => Array (map f g)) fs) (Ok (Array (map a g)))
  = Ok (Array (map (fun x => fold_left PrimFloat.add
                                       (map (fun f => f x) fs) (a x)) g)).
Proof.
  revert a.
  induction fs as [| f fs IH]; intros a; cbn [fold_left map bind].
  - reflexivity.
  - unfold add64 at 2. rewrite broadcast_same_grid_any.
    apply (IH (fun x => a x + f x)).
Qed.

Lemma sum64_arrays {A : Type} (f : A -> float) (fs : list (A -> float))
  (g : list A) :
  sum64 (map (fun f => Array (map f g)) (f :: fs))
  = Ok (Array (map (fun x => fold_left PrimFloat.add
                                       (map (fun f => f x) (f :: fs)) 0) g)).
Proof.
  unfold sum64, reduce. cbn [fold_left map bind].
  unfold add64 at 2. rewrite broadcast_scalar_array_any.
  apply (sum64_from_array fs (fun x => 0 + f x)).
Qed.

Variable pow : float -> float -> float.

Lemma numerator64_array (g : list float) (self : Acid64) (i : nat) :
  numerator64 pow (Array g) self i
  = Ok (Array (map (numerator_at64 pow self i) g)).
Proof.
  unfold numerator64. cbn [ufunc].
  apply (reduce_mul64_scalars (firstn i (Ka64 self))
           (fun h => pow h (float_of_nat (length (pKa64 self) - i))) g).
Qed.

Lemma numerators_loop64_array (g : list float) (self : Acid64) :
  numerators_loop64 pow (Array g) self
  = Ok (map (fun i => Array (map (numerator_at64 pow self i) g))
            (seq 0 (length (pKa64 self) + 1))).
Proof.
  unfold numerators_loop64.
  rewrite (append_loop (numerator64 pow (Array g) self)
             (fun i => Array (map (numerator_at64 pow self i) g))).
  - reflexivity.
  - intros i _. apply numerator64_array.
Qed.

Lemma sum64_numerators (g : list float) (self : Acid64) :
  sum64 (map (fun i => Array (map (numerator_at64 pow self i) g))
             (seq 0 (length (pKa64 self) + 1)))
  = Ok (Array (map (total_at64 pow self) g)).
Proof.
  unfold total_at64.
  rewrite Nat.add_1_r. cbn [seq].
  rewrite <- (map_map (numerator_at64 pow self)
                      (fun f => Array (map f g))).
  rewrite map_cons, sum64_arrays. do 2 f_equal.
  apply map_ext. intros h. now rewrite <- map_cons, map_map.
Qed.

Lemma alpha_with64_array (g : list float) (self : Acid64) :
  alpha_with64 pow (Array g) self
  = Ok (map (fun i =>
               Array (map (fun h => numerator_at64 pow self i h
                                    / total_at64 pow self h) g))
            (seq 0 (length (pKa64 self) + 1))).
Proof.
  unfold alpha_with64. rewrite numerators_loop64_array, bind_Ok.
  rewrite (comprehension_total _
             (fun a => match a with
                       | Scalar x => Scalar x
                       | Array v =>
                           Array (zip_with PrimFloat.div v
                                           (map (total_at64 pow self) g))
                       end)).
  - rewrite map_map. f_equal. apply map_ext. intros i.
    now rewrite zip_with_map_any.
  - intros a Ha. rewrite sum64_numerators, bind_Ok.
    apply in_map_iff in Ha. destruct Ha as [i [<- _]].
    unfold true_divide64. rewrite broadcast_same_grid_any.
    now rewrite zip_with_map_any.
Qed.

(** The grid of doubles starts at 0.0 and has 141 points. *)
Lemma pH64_starts_at_zero :
  exists others, pH64 = Array (0 :: others) /\ length others = 140%nat.
Proof.
  exists (tl (match pH64 with Array v => v | Scalar _ => [] end)).
  split; vm_compute; reflexivity.
Qed.

Hypothesis Hpow : pow_special_values pow.

(** A monoprotic acid at the first grid point, pH 0, where the hydronium
    concentration is [pow(10, -0.0) = 1]. *)
Lemma monoprotic_at_pH_zero (p ka c : float) :
  exists n0 n1 a0 a1,
    numerators_loop64 pow (hydronium_concentration64 pow)
                      {| pKa64 := [p]; Ka64 := [ka]; Ca64 := c |}
    = Ok [n0; n1] /\
    alpha64 pow {| pKa64 := [p]; Ka64 := [ka]; Ca64 := c |} = Ok [a0; a1] /\
    item64 n0 0 = 1 /\
    item64 n1 0 = 1 * ka /\
    item64 a0 0 = 1 / (0 + 1 + 1 * ka) /\
    item64 a1 0 = 1 * ka / (0 + 1 + 1 * ka).
Proof.
  destruct Hpow as (H0 & Hm0 & H1 & _ & _).
  destruct pH64_starts_at_zero as (others & E & _).
  unfold alpha64, hydronium_concentration64. rewrite E. cbn [ufunc map].
  rewrite numerators_loop64_array, alpha_with64_array.
  cbn [pKa64 length Nat.add seq map].
  do 4 eexists. split; [reflexivity |]. split; [reflexivity |].
  cbn [item64 nth]. rewrite Hm0.
  unfold total_at64, numerator_at64.
  cbn [pKa64 Ka64 length Nat.add Nat.sub seq map firstn fold_left
       float_of_nat].
  change (0 + 1) with 1. rewrite H1, H0.
  repeat split; reflexivity.
Qed.

(** The values that [Acid((-400,), c)] has at pH 0: [Ka] overflows to
    infinity, and the fractions are 0 and NaN. *)
Lemma overflowing_constant (c : float) :
  exists self a0 a1,
    Acid_init64 pow [- 400] c = Ok self /\
    alpha64 pow self = Ok [a0; a1] /\
    item64 a0 0 = 0 /\
    item64 a1 0 = nan.
Proof.
  destruct Hpow as (_ & _ & _ & Hov & _).
  destruct (monoprotic_at_pH_zero (- 400) infinity c)
    as (n0 & n1 & a0 & a1 & _ & HA & _ & _ & E0 & E1).
  exists {| pKa64 := [- 400]; Ka64 := [infinity]; Ca64 := c |}, a0, a1.
  split.
  - unfold Acid_init64. cbn [map].
    change (- (- 400)) with 400. now rewrite Hov.
  - split; [exact HA |]. split; [rewrite E0 | rewrite E1]; reflexivity.
Qed.

(** The values that [Acid((400,), c)] has at pH 0: [Ka] underflows to
    zero, and so do the second numerator, the second fraction and the
    second argument of [np.log10]; the first fraction is 1. *)
Lemma underflowing_constant (c : float) :
  exists self n0 n1 a0 a1 x0 x1,
    Acid_init64 pow [400] c = Ok self /\
    numerators_loop64 pow (hydronium_concentration64 pow) self
    = Ok [n0; n1] /\
    alpha64 pow self = Ok [a0; a1] /\
    log10_arguments64 pow self = Ok [x0; x1] /\
    item64 n1 0 = 0 /\
    item64 a0 0 = 1 /\
    item64 a1 0 = 0 /\
    item64 x1 0 = 0 * c.
Proof.
  destruct Hpow as (_ & _ & _ & _ & Hun).
  destruct (monoprotic_at_pH_zero 400 0 c)
    as (n0 & n1 & a0 & a1 & HN & HA & _ & E1 & F0 & F1).
  assert (Hshape : exists v0 v1, a0 = Array v0 /\ a1 = Array v1).
  { destruct pH64_starts_at_zero as (others & E & _).
    unfold alpha64, hydronium_concentration64 in HA. rewrite E in HA.
    cbn [ufunc map] in HA. rewrite alpha_with64_array in HA.
    cbn [pKa64 length Nat.add seq map] in HA.
    injection HA as <- <-. eauto. }
  destruct Hshape as (v0 & v1 & -> & ->).
  exists {| pKa64 := [400]; Ka64 := [0]; Ca64 := c |}, n0, n1,
         (Array v0), (Array v1).
  exists (Array (map (fun x => x * c) v0)), (Array (map (fun x => x * c) v1)).
  split.
  - unfold Acid_init64. cbn [map].
    change (PrimFloat.opp 400) with (- 400). now rewrite Hun.
  - split; [exact HN |]. split; [exact HA |]. split.
    + unfold log10_arguments64. rewrite HA. reflexivity.
    + split; [rewrite E1; reflexivity |].
      split; [rewrite F0; reflexivity |].
      split; [rewrite F1; reflexivity |].
      cbn [item64] in *. destruct v1 as [| y v1].
      * cbn [nth] in F1. discriminate.
      * cbn [map nth] in *. now rewrite F1.
Qed.

End Doubles.

Section DoublesExamples.

Import Float64.

#[local] Set Warnings "-inexact-float".
#[local] Open Scope float_scope.

Lemma pow_by_products_special : pow_special_values pow_by_products.
Proof.
  repeat split; try (intros x); reflexivity.
Qed.



(** In doubles the weights, fractions and logarithm arguments also
    leave the open intervals through underflow: for [Acid((400,), 0.1)]
    at pH 0 the second numerator, fraction and argument of [np.log10]
    are 0 and the first fraction is exactly 1. *)
Lemma numerator_is_zero_on_underflow :
  forall pow, pow_special_values pow ->
    exists self n0 n1 a0 a1 x0 x1,
      Acid_init64 pow [400] 0.1 = Ok self /\
      numerators_loop64 pow (hydronium_concentration64 pow) self
      = Ok [n0; n1] /\
      alpha64 pow self = Ok [a0; a1] /\
      log10_arguments64 pow self = Ok [x0; x1] /\
      item64 n1 0 = 0 /\
      item64 a0 0 = 1 /\
      item64 a1 0 = 0 /\
      item64 x1 0 = 0.
Proof.
  intros pow Hpow.
  destruct (underflowing_constant Hpow 0.1)
    as (self & n0 & n1 & a0 & a1 & x0 & x1 & H).
  exists self, n0, n1, a0, a1, x0, x1.
  destruct H as (H1 & H2 & H3 & H4 & H5 & H6 & H7 & H8).
  repeat (split; [assumption |]).
  rewrite H8. reflexivity.
Qed.

End DoublesExamples.

(** ** What the results depend on *)

(** [alpha] does not read the concentration: two acids built from the
    same pKa values have the same fractions. *)
Theorem alpha_ignores_concentration
  (pKaValues : list R) (c1 c2 : R) (self1 self2 : Acid) :
  Acid_init pKaValues c1 = Ok self1 ->
  Acid_init pKaValues c2 = Ok self2 ->
  alpha self1 = alpha self2.
Proof.
  intros H1 H2. now rewrite (alpha_of_init H1), (alpha_of_init H2).
Qed.

Lemma alpha_ignores_concentration_tyrosine :
  alpha tyrosine
  = alpha {| pKa := [2.17; 9.19; 10.47];
             Ka := map (fun x => Rpower 10 (- x)) [2.17; 9.19; 10.47];
             Ca := 7 |}.
Proof.
  apply (@alpha_ignores_concentration [2.17; 9.19; 10.47] 0.1 7);
    reflexivity.
Defined.

Close Scope R_scope.

(** ** More on the labels *)

Lemma replace_removes (old new : ascii) (s : string) :
  old <> new -> ~ In old (list_ascii_of_string (replace old new s)).
Proof.
  intros Hne. induction s as [| a s IH]; simpl.
  - intros [].
  - destruct (Ascii.eqb a old) eqn:E.
    + intros [H | H]; [now apply Hne | now apply IH].
    + apply Ascii.eqb_neq in E.
      intros [H | H]; [now apply E | now apply IH].
Qed.

(** Whatever the representation, no label that [formulas] returns holds
    the placeholder letter B: every B, also one that comes from the
    typeset name, has become an A. *)
Theorem labels_hold_no_placeholder (from_formula : string -> Substance)
  (self : Acid) (output : string) (labels : list string) :
  formulas from_formula self output = Ok labels ->
  Forall (fun s => ~ In "B"%char (list_ascii_of_string s)) labels.
Proof.
  unfold formulas. destruct (alpha self) as [alphas | e]; [| discriminate].
  rewrite bind_Ok. cbv zeta.
  assert (H : forall l : list string,
             Forall (fun s => ~ In "B"%char (list_ascii_of_string s))
                    (map (replace "B" "A") l)).
  { intros l. apply Forall_forall. intros s Hs.
    apply in_map_iff in Hs. destruct Hs as [t [<- _]].
    apply replace_removes. discriminate. }
  destruct (output =? "raw")%string; [intros [= <-]; apply H |].
  destruct (output =? "latex")%string; [intros [= <-]; apply H |].
  destruct (output =? "html")%string; [intros [= <-]; apply H |].
  discriminate.
Qed.

Lemma labels_hold_no_placeholder_carbonic :
  Forall (fun s => ~ In "B"%char (list_ascii_of_string s))
         ["H2A"; "HA-"; "A-2"]%string.
Proof.
  apply (@labels_hold_no_placeholder plain_names carbonic "raw").
  rewrite (@formulas_of_init plain_names [6.35; 10.33]%R 0.1%R carbonic "raw")
    by reflexivity.
  reflexivity.
Defined.

(** The labels depend on the number of pKa values only, not on the
    values or on the concentration. *)
Theorem labels_depend_on_count (from_formula : string -> Substance)
  (pKa1 pKa2 : list R) (c1 c2 : R) (self1 self2 : Acid) (output : string) :
  Acid_init pKa1 c1 = Ok self1 ->
  Acid_init pKa2 c2 = Ok self2 ->
  length pKa1 = length pKa2 ->
  formulas from_formula self1 output = formulas from_formula self2 output.
Proof.
  intros H1 H2 Hlen.
  rewrite (formulas_of_init from_formula output H1),
          (formulas_of_init from_formula output H2).
  now rewrite Hlen.
Qed.

Lemma labels_depend_on_count_tyrosine :
  formulas plain_names tyrosine "html"
  = formulas plain_names
      {| pKa := [1; 2; 3]%R; Ka := map (fun x => Rpower 10 (- x)) [1; 2; 3]%R;
         Ca := 5%R |} "html".
Proof.
  apply (@labels_depend_on_count plain_names
           [2.17; 9.19; 10.47]%R [1; 2; 3]%R 0.1%R 5%R);
    reflexivity.
Defined.

Lemma replace_append (old new : ascii) (s t : string) :
  replace old new (s ++ t) = (replace old new s ++ replace old new t)%string.
Proof.
  induction s as [| a s IH]; simpl; [reflexivity | now rewrite IH].
Qed.

Lemma replace_digits (d : Decimal.uint) :
  replace "B" "A" (NilEmpty.string_of_uint d) = NilEmpty.string_of_uint d.
Proof. induction d; simpl; congruence. Qed.

Lemma replace_str (k : Z) : replace "B" "A" (str k) = str k.
Proof.
  unfold str, NilZero.string_of_int, NilZero.string_of_uint.
  destruct (Z.to_int k) as [d | d]; destruct d; simpl;
    rewrite ?replace_digits; reflexivity.
Qed.

(** The raw label at 1-indexed position i of n+1 species: the hydrogens
    still attached, [n + 1 - i] of them (nothing, ["H"], or ["H"] and the
    count), then ["A"], then the charge [1 - i] (nothing for 0, ["-"]
    for -1, the signed integer otherwise). *)
Theorem raw_label_at_position (from_formula : string -> Substance)
  (pKaValues : list R) (c : R) (self : Acid) (i : nat) :
  Acid_init pKaValues c = Ok self ->
  (1 <= i <= length pKaValues + 1)%nat ->
  exists labels,
    formulas from_formula self "raw" = Ok labels /\
    nth_error labels (i - 1)
    = Some ((let idx := (length pKaValues + 1 - i)%nat in
             if (idx =? 0)%nat then ""
             else if (idx =? 1)%nat then "H"
             else "H" ++ str (Z.of_nat idx))
            ++ "A"
            ++ (if (i =? 1)%nat then ""
                else if (i =? 2)%nat then "-"
                else str (1 - Z.of_nat i)))%string.
Proof.
  intros Hinit Hi. eexists.
  split; [exact (formulas_of_init from_formula "raw" Hinit) |].
  cbv zeta. set (n := length pKaValues) in *.
  rewrite labels_loop_map, !nth_error_map.
  rewrite nth_error_nth' with (d := 0%nat) by (rewrite length_seq; lia).
  rewrite seq_nth by lia. cbn [option_map]. f_equal.
  replace (1 + (i - 1))%nat with i by lia.
  unfold label, charge_text, charge. cbv zeta.
  replace (Z.of_nat (n + 1) - (Z.of_nat (n + 1) + Z.of_nat i - 1))%Z
    with (1 - Z.of_nat i)%Z by lia.
  replace (Z.of_nat (n + 1) - Z.of_nat i)%Z
    with (Z.of_nat (n + 1 - i)) by lia.
  assert (Hc : replace "B" "A"
                 (if (1 - Z.of_nat i =? 0)%Z then ""
                  else if (1 - Z.of_nat i =? -1)%Z then "-"
                  else str (1 - Z.of_nat i))
               = (if (i =? 1)%nat then ""
                  else if (i =? 2)%nat then "-"
                  else str (1 - Z.of_nat i))%string).
  { destruct (Nat.eqb_spec i 1) as [-> | H1]; [reflexivity |].
    destruct (Z.eqb_spec (1 - Z.of_nat i) 0) as [H0 | _]; [lia |].
    destruct (Nat.eqb_spec i 2) as [-> | H2]; [reflexivity |].
    destruct (Z.eqb_spec (1 - Z.of_nat i) (-1)) as [H0 | _]; [lia |].
    apply replace_str. }
  destruct (Nat.eqb_spec (n + 1 - i) 0) as [E0 | N0].
  - rewrite E0. cbn [Z.of_nat Z.eqb]. rewrite replace_append, Hc.
    reflexivity.
  - destruct (Z.eqb_spec (Z.of_nat (n + 1 - i)) 0) as [H0 | _]; [lia |].
    destruct (Nat.eqb_spec (n + 1 - i) 1) as [E1 | N1].
    + rewrite E1. cbn [Z.of_nat Z.eqb Pos.of_succ_nat Pos.eqb].
      rewrite replace_append, Hc. reflexivity.
    + destruct (Z.eqb_spec (Z.of_nat (n + 1 - i)) 1) as [H1 | _]; [lia |].
      rewrite !replace_append, replace_str, Hc. reflexivity.
Qed.

Lemma raw_label_at_position_tyrosine :
  exists labels,
    formulas plain_names tyrosine "raw" = Ok labels /\
    nth_error labels (4 - 1) = Some "A-3"%string.
Proof.
  apply (@raw_label_at_position plain_names
           [2.17; 9.19; 10.47]%R 0.1%R tyrosine 4).
  - reflexivity.
  - simpl. lia.
Defined.

(** ** The diagrams *)

Module PlotFacts.

Import Plot.

Lemma getitem_after {A : Type} (before : list A) (a : A) (after : list A) :
  getitem (before ++ a :: after) (length before) = Returns a.
Proof.
  unfold getitem.
  rewrite nth_error_app2 by lia. now rewrite Nat.sub_diag.
Qed.

Lemma add_curves_from (entry : string -> string) (ys : list ordinate) :
  forall (before after : list string) (drawn : list curve),
    length after = length ys ->
    fold_left (add_curve entry (before ++ after))
              (combine (seq (length before) (length ys)) ys) (Returns drawn)
    = Returns (drawn ++ map (curve_of entry) (combine after ys)).
Proof.
  induction ys as [| y ys IH]; intros before after drawn Hlen.
  - destruct after; [| discriminate]. simpl. now rewrite app_nil_r.
  - destruct after as [| l after]; [discriminate |].
    injection Hlen as Hlen.
    cbn [length seq combine fold_left map].
    unfold add_curve at 2. cbn [and_then fst snd].
    rewrite getitem_after. cbn [and_then].
    replace (before ++ l :: after) with ((before ++ [l]) ++ after)
      by now rewrite <- app_assoc.
    replace (S (length before)) with (length (before ++ [l]))
      by (rewrite length_app; simpl; lia).
    rewrite (IH (before ++ [l]) after _ Hlen).
    now rewrite <- app_assoc.
Qed.

(** With as many labels as ordinates, the loop adds one curve per
    ordinate, under the label of the same index. *)
Lemma add_curves_aligned (entry : string -> string) (labels : list string)
  (ys : list ordinate) (drawn : list curve) :
  length labels = length ys ->
  add_curves entry labels ys drawn
  = Returns (drawn ++ map (curve_of entry) (combine labels ys)).
Proof.
  intros Hlen. unfold add_curves, enumerate.
  apply (add_curves_from entry ys [] labels drawn Hlen).
Qed.

(** With fewer labels than ordinates the loop would raise [IndexError]. *)
Lemma add_curves_short (entry : string -> string) (ys : list ordinate) :
  forall (before after : list string) (drawn : list curve),
    (length after < length ys)%nat ->
    fold_left (add_curve entry (before ++ after))
              (combine (seq (length before) (length ys)) ys) (Returns drawn)
    = Raises IndexError.
Proof.
  assert (Hstuck : forall (labels : list string) (l : list (nat * ordinate)),
             fold_left (add_curve entry labels) l (Raises IndexError)
             = Raises IndexError).
  { intros labels l. induction l as [| iy l IHl]; [reflexivity | exact IHl]. }
  induction ys as [| y ys IH]; intros before after drawn Hlen.
  - simpl in Hlen. lia.
  - cbn [length seq combine fold_left].
    destruct after as [| l after].
    + unfold add_curve at 2. cbn [and_then fst snd]. unfold getitem.
      rewrite app_nil_r.
      replace (nth_error before (length before)) with (@None string)
        by (symmetry; apply nth_error_None; lia).
      cbn [and_then]. apply Hstuck.
    + unfold add_curve at 2. cbn [and_then fst snd].
      rewrite getitem_after. cbn [and_then].
      replace (before ++ l :: after) with ((before ++ [l]) ++ after)
        by now rewrite <- app_assoc.
      replace (S (length before)) with (length (before ++ [l]))
        by (rewrite length_app; simpl; lia).
      apply IH. simpl in Hlen. lia.
Qed.

Lemma nth_error_aligned (entry : string -> string) (labels : list string)
  (ys : list ordinate) (k : nat) (l0 : string) (y0 : ordinate) :
  length labels = length ys -> (k < length ys)%nat ->
  nth_error (map (curve_of entry) (combine labels ys)) k
  = Some {| x_data := pH; y_data := nth k ys y0;
            name := entry (nth k labels l0) |}.
Proof.
  intros Hlen Hk.
  rewrite nth_error_map.
  rewrite nth_error_nth' with (d := (l0, y0))
    by (rewrite length_combine; lia).
  now rewrite combine_nth by exact Hlen.
Qed.

End PlotFacts.

Module PlotTheorems.

Import Plot PlotFacts.

Lemma latex_labels (from_formula : string -> Substance)
  (pKaValues : list R) (c : R) (self : Acid) :
  Acid_init pKaValues c = Ok self ->
  exists labels,
    formulas from_formula self "latex" = Ok labels /\
    length labels = (length pKaValues + 1)%nat.
Proof.
  intros Hinit. eexists.
  split; [exact (formulas_of_init from_formula "latex" Hinit) |].
  now rewrite !length_map, length_labels_loop.
Qed.

Lemma html_labels (from_formula : string -> Substance)
  (pKaValues : list R) (c : R) (self : Acid) :
  Acid_init pKaValues c = Ok self ->
  exists labels,
    formulas from_formula self "html" = Ok labels /\
    length labels = (length pKaValues + 1)%nat.
Proof.
  intros Hinit. eexists.
  split; [exact (formulas_of_init from_formula "html" Hinit) |].
  now rewrite !length_map, length_labels_loop.
Qed.

Lemma alphas_of_acid (pKaValues : list R) (c : R) (self : Acid) :
  Acid_init pKaValues c = Ok self ->
  exists alphas,
    alpha self = Ok alphas /\ length alphas = (length pKaValues + 1)%nat.
Proof.
  intros Hinit. eexists. split; [exact (alpha_of_init Hinit) |].
  now rewrite length_map, length_seq.
Qed.

Lemma logs_of_acid (pKaValues : list R) (c : R) (self : Acid) :
  Acid_init pKaValues c = Ok self ->
  exists logs,
    log_concentrations self = Ok logs /\
    length logs = (length pKaValues + 1)%nat.
Proof.
  intros Hinit. eexists. split; [exact (log_concentrations_of_init Hinit) |].
  now rewrite length_map, length_seq.
Qed.

(** What a diagram method returns once its labels and ordinates are
    known and equally many. *)
Lemma figure_of (entry : string -> string) (labels : list string)
  (ys : list ordinate) (drawn : list curve) (dest : destination) :
  length labels = length ys ->
  (cs <~ add_curves entry labels ys drawn ;;
   Returns {| curves := cs; goes_to := dest |})
  = Returns {| curves := drawn ++ map (curve_of entry) (combine labels ys);
               goes_to := dest |}.
Proof. intros Hlen. now rewrite add_curves_aligned. Qed.

Lemma distribution_matplotlib_figure (from_formula : string -> Substance)
  (axes_setup : string -> string -> outcome unit)
  (self : Acid) (labels : list string) (alphas : list (ndarray R)) :
  formulas from_formula self "latex" = Ok labels ->
  alpha self = Ok alphas ->
  length labels = length alphas ->
  _distribution_diagram_matplotlib from_formula axes_setup self
  = (_ <~ axes_setup "$\alpha$"%string "pH"%string ;;
     Returns {| curves := map (curve_of dollars)
                              (combine labels (map Floats alphas));
                goes_to := show |}).
Proof.
  intros HL HA Hlen. unfold _distribution_diagram_matplotlib, plot_params.
  destruct (axes_setup "$\alpha$"%string "pH"%string) as [[] | e]; [| reflexivity].
  cbn [and_then]. rewrite HL, HA. cbn [lift and_then].
  now rewrite figure_of by now rewrite length_map.
Qed.

Lemma distribution_plotly_figure (from_formula : string -> Substance)
  (self : Acid) (output : bool) (labels : list string)
  (alphas : list (ndarray R)) :
  formulas from_formula self "html" = Ok labels ->
  alpha self = Ok alphas ->
  length labels = length alphas ->
  _distribution_diagram_plotly from_formula self output
  = Returns {| curves := map (curve_of (fun l => l))
                             (combine labels (map Floats alphas));
               goes_to := if output
                          then write_html "output_distribution.html"
                          else show |}.
Proof.
  intros HL HA Hlen. unfold _distribution_diagram_plotly.
  rewrite HL, HA. cbn [lift and_then].
  now rewrite figure_of by now rewrite length_map.
Qed.

Lemma pC_matplotlib_figure (from_formula : string -> Substance)
  (axes_setup : string -> string -> outcome unit)
  (self : Acid) (labels : list string) (logs : list (ndarray logval)) :
  formulas from_formula self "latex" = Ok labels ->
  log_concentrations self = Ok logs ->
  length labels = length logs ->
  _pC_diagram_matplotlib from_formula axes_setup self
  = (_ <~ axes_setup "$\log c$"%string "pH"%string ;;
     Returns {| curves := water_lines
                          ++ map (curve_of dollars)
                                 (combine labels (map Logs logs));
                goes_to := show |}).
Proof.
  intros HL HA Hlen. unfold _pC_diagram_matplotlib, plot_params.
  destruct (axes_setup "$\log c$"%string "pH"%string) as [[] | e]; [| reflexivity].
  cbn [and_then]. rewrite HL, HA. cbn [lift and_then].
  now rewrite figure_of by now rewrite length_map.
Qed.

Lemma pC_plotly_figure (from_formula : string -> Substance)
  (self : Acid) (output : bool) (labels : list string)
  (logs : list (ndarray logval)) :
  formulas from_formula self "html" = Ok labels ->
  log_concentrations self = Ok logs ->
  length labels = length logs ->
  _pC_diagram_plotly from_formula self output
  = Returns {| curves := water_lines
                         ++ map (curve_of (fun l => l))
                                (combine labels (map Logs logs));
               goes_to := if output then write_html "output_pC.html"
                          else show |}.
Proof.
  intros HL HA Hlen. unfold _pC_diagram_plotly.
  rewrite HL, HA. cbn [lift and_then].
  now rewrite figure_of by now rewrite length_map.
Qed.

(** [plot] raises its own [ValueError] whenever the type is not one of
    ["distribution"], ["pC"] or the backend not one of ["matplotlib"],
    ["plotly"].  On an accepted pair with backend plotly it returns a
    figure, for every constructed acid: no label look-up is out of
    range.  On an accepted pair with backend matplotlib it does what the
    axis set-up of [plot_params] does first: it raises what that raises,
    and returns a figure when that returns. *)
Theorem plot_raises_on_unknown_request (from_formula : string -> Substance)
  (axes_setup : string -> string -> outcome unit)
  (pKaValues : list R) (c : R) (self : Acid)
  (type backend : string) (output_plotly : bool) :
  Acid_init pKaValues c = Ok self ->
  (~ ((type = "distribution" \/ type = "pC") /\
      (backend = "matplotlib" \/ backend = "plotly")) ->
   plot from_formula axes_setup self type backend output_plotly
   = Raises (Builtin ValueError))%string /\
  ((type = "distribution" \/ type = "pC") /\ backend = "plotly" ->
   exists fig,
     plot from_formula axes_setup self type backend output_plotly
     = Returns fig)%string /\
  ((type = "distribution" \/ type = "pC") /\ backend = "matplotlib" ->
   exists fig,
     plot from_formula axes_setup self type backend output_plotly
     = (_ <~ axes_setup (if (type =? "distribution")%string
                         then "$\alpha$" else "$\log c$")%string "pH"%string ;;
        Returns fig))%string.
Proof.
  intros Hinit.
  destruct (latex_labels from_formula Hinit) as (L & HL & HLn).
  destruct (html_labels from_formula Hinit) as (H & HH & HHn).
  destruct (alphas_of_acid Hinit) as (A & HA & HAn).
  destruct (logs_of_acid Hinit) as (G & HG & HGn).
  split; [| split].
  - intros Hbad. unfold plot.
    destruct (String.eqb_spec type "distribution") as [Ht1 | Ht1];
      destruct (String.eqb_spec type "pC") as [Ht2 | Ht2];
      destruct (String.eqb_spec backend "matplotlib") as [Hb1 | Hb1];
      destruct (String.eqb_spec backend "plotly") as [Hb2 | Hb2];
      cbn [andb]; try reflexivity; exfalso; apply Hbad; auto.
  - intros [[-> | ->] ->]; unfold plot;
      cbn [String.eqb Ascii.eqb Bool.eqb andb]; eexists.
    + apply (distribution_plotly_figure _ _ _ HH HA). congruence.
    + apply (pC_plotly_figure _ _ _ HH HG). congruence.
  - intros [[-> | ->] ->]; unfold plot;
      cbn [String.eqb Ascii.eqb Bool.eqb andb]; eexists.
    + apply (distribution_matplotlib_figure _ _ _ HL HA). congruence.
    + apply (pC_matplotlib_figure _ _ _ HL HG). congruence.
Qed.

(** Two axis set-ups: one that returns, and one that raises as a recent
    matplotlib does. *)
Lemma plot_raises_on_unknown_request_tyrosine :
  plot plain_names (fun _ _ => Returns tt) tyrosine "pc" "plotly" true
  = Raises (Builtin ValueError) /\
  (exists fig,
     plot plain_names (fun _ _ => Raises (Builtin ValueError)) tyrosine
          "pC" "plotly" true = Returns fig) /\
  (exists fig,
     plot plain_names (fun _ _ => Returns tt) tyrosine
          "pC" "matplotlib" true = Returns fig) /\
  plot plain_names (fun _ _ => Raises (Foreign "TypeError"%string)) tyrosine
       "distribution" "matplotlib" false
  = Raises (Foreign "TypeError"%string).
Proof.
  split; [| split; [| split]].
  - destruct (@plot_raises_on_unknown_request plain_names
                (fun _ _ => Returns tt)
                [2.17; 9.19; 10.47]%R 0.1%R tyrosine "pc" "plotly" true
                eq_refl) as (Hbad & _ & _).
    apply Hbad. intros [[H | H] _]; discriminate.
  - destruct (@plot_raises_on_unknown_request plain_names
                (fun _ _ => Raises (Builtin ValueError))
                [2.17; 9.19; 10.47]%R 0.1%R tyrosine "pC" "plotly" true
                eq_refl) as (_ & Hplotly & _).
    apply Hplotly. split; [right |]; reflexivity.
  - destruct (@plot_raises_on_unknown_request plain_names
                (fun _ _ => Returns tt)
                [2.17; 9.19; 10.47]%R 0.1%R tyrosine "pC" "matplotlib" true
                eq_refl) as (_ & _ & Hmpl).
    apply Hmpl. split; [right |]; reflexivity.
  - destruct (@plot_raises_on_unknown_request plain_names
                (fun _ _ => Raises (Foreign "TypeError"%string))
                [2.17; 9.19; 10.47]%R 0.1%R tyrosine
                "distribution" "matplotlib" false
                eq_refl) as (_ & _ & Hmpl).
    destruct Hmpl as [fig Hfig]; [split; [left |]; reflexivity |].
    exact Hfig.
Defined.

(** The curves of a distribution diagram, on either backend: one per
    species, in the order of [alpha], the k-th plotting [alpha[k]]
    against the grid under the k-th label (the latex label between
    dollars for matplotlib, the html label for plotly).  plotly returns
    that figure, written to [output_distribution.html] when asked to and
    shown otherwise; matplotlib shows it once the axis set-up of
    [plot_params] has returned, and raises what that raises. *)
Theorem distribution_diagram_curves (from_formula : string -> Substance)
  (axes_setup : string -> string -> outcome unit)
  (pKaValues : list R) (c : R) (self : Acid)
  (backend : string) (output_plotly : bool) :
  Acid_init pKaValues c = Ok self ->
  (backend = "matplotlib" \/ backend = "plotly")%string ->
  exists alphas labels fig,
    alpha self = Ok alphas /\
    formulas from_formula self
             (if (backend =? "matplotlib")%string then "latex" else "html")
    = Ok labels /\
    plot from_formula axes_setup self "distribution" backend output_plotly
    = (if (backend =? "matplotlib")%string
       then (_ <~ axes_setup "$\alpha$"%string "pH"%string ;; Returns fig)
       else Returns fig) /\
    length (curves fig) = (length pKaValues + 1)%nat /\
    goes_to fig
    = (if (backend =? "matplotlib")%string then show
       else if output_plotly then write_html "output_distribution.html"
       else show) /\
    forall k, (k < length pKaValues + 1)%nat ->
      nth_error (curves fig) k
      = Some {| x_data := pH;
                y_data := Floats (nth k alphas (Scalar 0%R));
                name := if (backend =? "matplotlib")%string
                        then dollars (nth k labels EmptyString)
                        else nth k labels EmptyString |}.
Proof.
  intros Hinit Hbackend.
  destruct (latex_labels from_formula Hinit) as (L & HL & HLn).
  destruct (html_labels from_formula Hinit) as (H & HH & HHn).
  destruct (alphas_of_acid Hinit) as (A & HA & HAn).
  destruct Hbackend as [-> | ->];
    cbn [String.eqb Ascii.eqb Bool.eqb]; unfold plot;
    cbn [String.eqb Ascii.eqb Bool.eqb andb].
  - exists A, L. eexists.
    split; [exact HA |]. split; [exact HL |].
    split; [apply (distribution_matplotlib_figure _ _ _ HL HA); congruence |].
    cbn [curves goes_to].
    split; [rewrite length_map, length_combine, length_map; lia |].
    split; [reflexivity |].
    intros k Hk.
    rewrite (nth_error_aligned dollars L (map Floats A) EmptyString
               (Floats (Scalar 0%R)))
      by (rewrite length_map; lia).
    now rewrite (map_nth Floats).
  - exists A, H. eexists.
    split; [exact HA |]. split; [exact HH |].
    split; [apply (distribution_plotly_figure _ _ _ HH HA); congruence |].
    cbn [curves goes_to].
    split; [rewrite length_map, length_combine, length_map; lia |].
    split; [reflexivity |].
    intros k Hk.
    rewrite (nth_error_aligned (fun l => l) H (map Floats A) EmptyString
               (Floats (Scalar 0%R)))
      by (rewrite length_map; lia).
    now rewrite (map_nth Floats).
Qed.

Lemma distribution_diagram_curves_tyrosine :
  exists alphas labels fig,
    alpha tyrosine = Ok alphas /\
    formulas plain_names tyrosine "latex" = Ok labels /\
    plot plain_names (fun _ _ => Raises (Foreign "TypeError"%string)) tyrosine
         "distribution" "matplotlib" true
    = Raises (Foreign "TypeError"%string) /\
    length (curves fig) = (3 + 1)%nat /\
    goes_to fig = show /\
    forall k, (k < 3 + 1)%nat ->
      nth_error (curves fig) k
      = Some {| x_data := pH;
                y_data := Floats (nth k alphas (Scalar 0%R));
                name := dollars (nth k labels EmptyString) |}.
Proof.
  apply (@distribution_diagram_curves plain_names
           (fun _ _ => Raises (Foreign "TypeError"%string))
           [2.17; 9.19; 10.47]%R 0.1%R tyrosine "matplotlib" true).
  - reflexivity.
  - left. reflexivity.
Defined.

(** The curves of a pC diagram, on either backend: the two lines [-pH]
    and [-pOH] first, named pH and pOH, then one curve per species in
    the order of [log_concentrations], the k-th under the k-th label.
    plotly returns that figure, written to [output_pC.html] when asked
    to and shown otherwise; matplotlib shows it once the axis set-up of
    [plot_params] has returned, and raises what that raises. *)
Theorem pC_diagram_curves (from_formula : string -> Substance)
  (axes_setup : string -> string -> outcome unit)
  (pKaValues : list R) (c : R) (self : Acid)
  (backend : string) (output_plotly : bool) :
  Acid_init pKaValues c = Ok self ->
  (backend = "matplotlib" \/ backend = "plotly")%string ->
  exists logs labels fig,
    log_concentrations self = Ok logs /\
    formulas from_formula self
             (if (backend =? "matplotlib")%string then "latex" else "html")
    = Ok labels /\
    plot from_formula axes_setup self "pC" backend output_plotly
    = (if (backend =? "matplotlib")%string
       then (_ <~ axes_setup "$\log c$"%string "pH"%string ;; Returns fig)
       else Returns fig) /\
    length (curves fig) = (length pKaValues + 3)%nat /\
    goes_to fig
    = (if (backend =? "matplotlib")%string then show
       else if output_plotly then write_html "output_pC.html"
       else show) /\
    nth_error (curves fig) 0
    = Some {| x_data := pH; y_data := Floats (ufunc Ropp pH);
              name := "pH" |} /\
    nth_error (curves fig) 1
    = Some {| x_data := pH; y_data := Floats (ufunc Ropp pOH);
              name := "pOH" |} /\
    forall k, (k < length pKaValues + 1)%nat ->
      nth_error (curves fig) (2 + k)
      = Some {| x_data := pH;
                y_data := Logs (nth k logs (Scalar NaN));
                name := if (backend =? "matplotlib")%string
                        then dollars (nth k labels EmptyString)
                        else nth k labels EmptyString |}.
Proof.
  intros Hinit Hbackend.
  destruct (latex_labels from_formula Hinit) as (L & HL & HLn).
  destruct (html_labels from_formula Hinit) as (H & HH & HHn).
  destruct (logs_of_acid Hinit) as (G & HG & HGn).
  destruct Hbackend as [-> | ->];
    cbn [String.eqb Ascii.eqb Bool.eqb]; unfold plot;
    cbn [String.eqb Ascii.eqb Bool.eqb andb].
  - exists G, L. eexists.
    split; [exact HG |]. split; [exact HL |].
    split; [apply (pC_matplotlib_figure _ _ _ HL HG); congruence |].
    cbn [curves goes_to].
    split; [rewrite length_app, length_map, length_combine, length_map;
            simpl; lia |].
    split; [reflexivity |].
    split; [reflexivity |]. split; [reflexivity |].
    intros k Hk.
    change (nth_error (water_lines
                       ++ map (curve_of dollars) (combine L (map Logs G)))
                      (2 + k))
      with (nth_error (map (curve_of dollars) (combine L (map Logs G))) k).
    rewrite (nth_error_aligned dollars L (map Logs G) EmptyString
               (Logs (Scalar NaN)))
      by (rewrite length_map; lia).
    now rewrite (map_nth Logs).
  - exists G, H. eexists.
    split; [exact HG |]. split; [exact HH |].
    split; [apply (pC_plotly_figure _ _ _ HH HG); congruence |].
    cbn [curves goes_to].
    split; [rewrite length_app, length_map, length_combine, length_map;
            simpl; lia |].
    split; [reflexivity |].
    split; [reflexivity |]. split; [reflexivity |].
    intros k Hk.
    change (nth_error (water_lines
                       ++ map (curve_of (fun l => l))
                              (combine H (map Logs G)))
                      (2 + k))
      with (nth_error (map (curve_of (fun l => l))
                           (combine H (map Logs G))) k).
    rewrite (nth_error_aligned (fun l => l) H (map Logs G) EmptyString
               (Logs (Scalar NaN)))
      by (rewrite length_map; lia).
    now rewrite (map_nth Logs).
Qed.

Lemma pC_diagram_curves_tyrosine :
  exists logs labels fig,
    log_concentrations tyrosine = Ok logs /\
    formulas plain_names tyrosine "html" = Ok labels /\
    plot plain_names (fun _ _ => Raises (Foreign "TypeError"%string)) tyrosine
         "pC" "plotly" true = Returns fig /\
    length (curves fig) = (3 + 3)%nat /\
    goes_to fig = write_html "output_pC.html" /\
    nth_error (curves fig) 0
    = Some {| x_data := pH; y_data := Floats (ufunc Ropp pH);
              name := "pH" |} /\
    nth_error (curves fig) 1
    = Some {| x_data := pH; y_data := Floats (ufunc Ropp pOH);
              name := "pOH" |} /\
    forall k, (k < 3 + 1)%nat ->
      nth_error (curves fig) (2 + k)
      = Some {| x_data := pH;
                y_data := Logs (nth k logs (Scalar NaN));
                name := nth k labels EmptyString |}.
Proof.
  apply (@pC_diagram_curves plain_names
           (fun _ _ => Raises (Foreign "TypeError"%string))
           [2.17; 9.19; 10.47]%R 0.1%R tyrosine "plotly" true).
  - reflexivity.
  - right. reflexivity.
Defined.

End PlotTheorems.
